(** * dsbook: the PCA-as-autoencoder chapter and the clustering notebook

    A shallow embedding of the two chapters of the book:

    - the autoencoder chapter is prose only; its one formula, the rank-k
      reconstruction [U_k S_k V_k^T], is modelled over the real numbers;
    - the clustering notebook [dsbook/unsupervised/cluster.ipynb] has nine
      code cells.  The formulas of its text (the responsibilities of a
      Gaussian mixture, the multivariate normal density) are modelled over
      the real numbers; its code cells are modelled as programs of a small
      state-and-exception monad over the kernel's namespace, with every
      call into numpy, scikit-learn, matplotlib and seaborn recorded in a
      log.  What those libraries compute is a parameter ([Library]),
      except for the array primitives and [pairwise_distances_argmin],
      whose documented behaviour is written out.

    Floating-point numbers are exact rationals plus one non-finite value:
    no rounding is modelled. *)

From Stdlib Require Import Reals Lra Lia List Morphisms QArith ZArith.
From stdpp Require Import base gmap strings list pretty.

(** ** Real-number sums, for the formulas of the prose *)

Fixpoint rsum (n : nat) (f : nat -> R) : R :=
  match n with
  | O => 0%R
  | S n' => (rsum n' f + f n')%R
  end.

Definition Rlist_sum (l : list R) : R := foldr Rplus 0%R l.

(** ** The autoencoder chapter: [X ≈ U_k S_k V_k^T]

    The factors of a singular value decomposition, as index functions:
    [svd_U] is [n_rows x n_sing], [svd_S] holds the singular values and
    [svd_V] is [n_cols x n_sing]. *)

Record svd_factors := SvdFactors {
  n_rows : nat;
  n_cols : nat;
  n_sing : nat;
  svd_U : nat -> nat -> R;
  svd_S : nat -> R;
  svd_V : nat -> nat -> R
}.

(** Entry (i, j) of [U_k S_k V_k^T]: only the top [k] components are kept. *)
Definition reconstruct (d : svd_factors) (k : nat) (i j : nat) : R :=
  rsum (Nat.min k (n_sing d)) (fun c => (svd_U d i c * svd_S d c * svd_V d j c)%R).

Definition delta (a b : nat) : R := if Nat.eqb a b then 1%R else 0%R.

(** [d] is a singular value decomposition of [X]: [X = U S V^T], the columns
    of [U] and of [V] are orthonormal, and the singular values are
    non-negative and sorted in decreasing order ("top k"). *)
Record is_svd (X : nat -> nat -> R) (d : svd_factors) : Prop := IsSvd {
  svd_product : forall i j, i < n_rows d -> j < n_cols d ->
      X i j = reconstruct d (n_sing d) i j;
  svd_U_orthonormal : forall a b, a < n_sing d -> b < n_sing d ->
      rsum (n_rows d) (fun i => (svd_U d i a * svd_U d i b)%R) = delta a b;
  svd_V_orthonormal : forall a b, a < n_sing d -> b < n_sing d ->
      rsum (n_cols d) (fun j => (svd_V d j a * svd_V d j b)%R) = delta a b;
  svd_S_nonneg : forall c, c < n_sing d -> (0 <= svd_S d c)%R;
  svd_S_sorted : forall a b, a <= b -> b < n_sing d -> (svd_S d b <= svd_S d a)%R
}.

(** Sum of the squared entries of [X - U_k S_k V_k^T]. *)
Definition squared_error (X : nat -> nat -> R) (d : svd_factors) (k : nat) : R :=
  rsum (n_rows d) (fun i =>
    rsum (n_cols d) (fun j => Rsqr (X i j - reconstruct d k i j))).

(** The reconstruction error: the Frobenius norm of [X - U_k S_k V_k^T]. *)
Definition reconstruction_error (X : nat -> nat -> R) (d : svd_factors) (k : nat) : R :=
  sqrt (squared_error X d k).

(** 1 when component [c] is dropped by a truncation at rank [k]. *)
Definition dropped (k c : nat) : R := if Nat.leb k c then 1%R else 0%R.

(** ** The notebook's text: multivariate normal density and responsibilities

    The data of the notebook has two features, so the density is written
    out for k = 2: a mean vector and a 2 x 2 covariance matrix. *)

Record gaussian := Gaussian {
  mix : R;                 (* mixing coefficient P_k *)
  mu : R * R;              (* mean vector *)
  cov : (R * R) * (R * R)  (* covariance matrix, by rows *)
}.

Definition det2 (s : (R * R) * (R * R)) : R :=
  let '((a, b), (c, e)) := s in (a * e - b * c)%R.

(** [(x - mu)^T Sigma^-1 (x - mu)], with the inverse of a 2 x 2 matrix
    written out. *)
Definition mahalanobis (x m : R * R) (s : (R * R) * (R * R)) : R :=
  let '((a, b), (c, e)) := s in
  let u := (fst x - fst m)%R in
  let v := (snd x - snd m)%R in
  ((u * (e * u - b * v) + v * (a * v - c * u)) / det2 s)%R.

(** [N(x; mu, Sigma) = exp(-1/2 (x-mu)^T Sigma^-1 (x-mu)) / sqrt((2 pi)^k |Sigma|)],
    k = 2. *)
Definition normal_pdf (x : R * R) (g : gaussian) : R :=
  (/ sqrt ((2 * PI) ^ 2 * det2 (cov g)) * exp (- (1 / 2) * mahalanobis x (mu g) (cov g)))%R.

(** [sum_j P_j N(x | mu_j, Sigma_j)] *)
Definition mixture_density (gmm : list gaussian) (x : R * R) : R :=
  Rlist_sum (map (fun g => (mix g * normal_pdf x g)%R) gmm).

(** [gamma_nk = P_k N(x_n | mu_k, Sigma_k) / sum_j P_j N(x_n | mu_j, Sigma_j)] *)
Definition responsibility (gmm : list gaussian) (x : R * R) (g : gaussian) : R :=
  (mix g * normal_pdf x g / mixture_density gmm x)%R.

(** The posterior membership probabilities: one row per data point, one
    column per mixture component. *)
Definition posterior (gmm : list gaussian) (X : list (R * R)) : list (list R) :=
  map (fun x => map (responsibility gmm x) gmm) X.

(** A fitted mixture: mixing coefficients are non-negative and sum to 1,
    and every covariance matrix has a positive determinant. *)
Definition fitted_mixture (gmm : list gaussian) : Prop :=
  Forall (fun g => (0 <= mix g)%R /\ (0 < det2 (cov g))%R) gmm /\
  Rlist_sum (map mix gmm) = 1%R.

(** ** Floating-point values and arrays of the code cells *)

(** A float64: an exact rational, or [NaN] for a result that is not a finite
    number (the mean of an empty selection). *)
Inductive float64 := Fin (q : Q) | NaN.

Definition fadd (a b : float64) : float64 :=
  match a, b with
  | Fin x, Fin y => Fin (x + y)
  | _, _ => NaN
  end.

Definition fmul (a b : float64) : float64 :=
  match a, b with
  | Fin x, Fin y => Fin (x * y)
  | _, _ => NaN
  end.

Definition fdiv (a b : float64) : float64 :=
  match a, b with
  | Fin x, Fin y => if Qeq_bool y 0 then NaN else Fin (x / y)
  | _, _ => NaN
  end.

Definition fmax (a b : float64) : float64 :=
  match a, b with
  | Fin x, Fin y => if Qle_bool x y then Fin y else Fin x
  | _, _ => NaN
  end.

Definition of_nat (n : nat) : float64 := Fin (inject_Z (Z.of_nat n)).

Definition fsum (l : list float64) : float64 := foldr fadd (Fin 0) l.

(** [a.mean()] of a one-dimensional array; numpy returns nan for an empty
    one (with a warning, not an exception). *)
Definition fmean (l : list float64) : float64 :=
  match l with
  | [] => NaN
  | _ => fdiv (fsum l) (of_nat (length l))
  end.

(** A row of an (n, 2) array, and the array. *)
Definition point : Type := float64 * float64.
Definition array : Type := list point.

Definition qpoint : Type := Q * Q.

Definition finite_point (p : point) : option qpoint :=
  match p with
  | (Fin x, Fin y) => Some (x, y)
  | _ => None
  end.

(** The rows of an array when all its entries are finite. *)
Definition finite_rows (a : array) : option (list qpoint) := mapM finite_point a.

Definition col0 (a : array) : list float64 := map fst a.   (* a[:, 0] *)
Definition col1 (a : array) : list float64 := map snd a.   (* a[:, 1] *)
Definition flip_columns (a : array) : array := map (fun p => (snd p, fst p)) a.  (* a[:, ::-1] *)

(** [a.mean(0)]: the mean of each column. *)
Definition mean0 (a : array) : point := (fmean (col0 a), fmean (col1 a)).

(** An array of any of the shapes a covariance can have. *)
Inductive ndarray :=
| Scalar (x : float64)
| Vector (v : list float64)
| Matrix (rows : list (list float64)).

Definition shape (a : ndarray) : list nat :=
  match a with
  | Scalar _ => []
  | Vector v => [length v]
  | Matrix rows => [length rows; length (default [] (head rows))]
  end.

Definition nd_map (f : float64 -> float64) (a : ndarray) : ndarray :=
  match a with
  | Scalar x => Scalar (f x)
  | Vector v => Vector (map f v)
  | Matrix rows => Matrix (map (map f) rows)
  end.

(** [n * a] *)
Definition nd_scale (n : nat) (a : ndarray) : ndarray := nd_map (fmul (of_nat n)) a.

Definition mat2 : Type := (float64 * float64) * (float64 * float64).

(** The entries of a covariance of shape (2, 2). *)
Definition as_mat2 (a : ndarray) : option mat2 :=
  match a with
  | Matrix [[a; b]; [c; e]] => Some ((a, b), (c, e))
  | _ => None
  end.

(** ** Exceptions and results *)

Inductive exn :=
| NameError (name : string)
| TypeError (msg : string)
| ValueError (msg : string)
| IndexError (msg : string)
| AttributeError (msg : string)
| NotFittedError
| LibraryError (code : nat).   (* any other exception raised inside a library *)

Inductive result (A : Type) :=
| Ok (a : A)
| Raise (e : exn).
Arguments Ok {A} a.
Arguments Raise {A} e.

#[export] Instance result_ret : MRet result := fun A a => Ok a.
#[export] Instance result_bind : MBind result := fun A B f r =>
  match r with
  | Ok a => f a
  | Raise e => Raise e
  end.

Definition outcome {A} (r : result A) : option exn :=
  match r with
  | Ok _ => None
  | Raise e => Some e
  end.

(** ** The two k-Means steps of the illustration cell *)

(** [||x - c||^2] *)
Definition sq_dist (x c : qpoint) : Q :=
  ((fst x - fst c) * (fst x - fst c) + (snd x - snd c) * (snd x - snd c))%Q.

(** Index of the first minimum of [ds], scanning from index [i] with the
    best index and value so far. *)
Fixpoint argmin_from (best : nat) (bestd : Q) (i : nat) (ds : list Q) : nat :=
  match ds with
  | [] => best
  | d :: ds' =>
      if Qle_bool bestd d then argmin_from best bestd (S i) ds'
      else argmin_from i d (S i) ds'
  end.

Definition argmin (ds : list Q) : option nat :=
  match ds with
  | [] => None
  | d :: ds' => Some (argmin_from 0 d 1 ds')
  end.

(** [sklearn.metrics.pairwise_distances_argmin(X, Y)]: for each row of [X]
    the index of the closest row of [Y] (Euclidean metric, first index on
    ties).  The library refuses empty or non-finite input. *)
Definition pairwise_distances_argmin (X Y : array) : result (list nat) :=
  match finite_rows X, finite_rows Y with
  | Some xs, Some ys =>
      match xs, mapM (fun x => argmin (map (sq_dist x) ys)) xs with
      | _ :: _, Some labels => Ok labels
      | _, _ => Raise (ValueError "empty input")
      end
  | _, _ => Raise (ValueError "input contains NaN")
  end.

(** [labels == i] *)
Definition eq_mask (labels : list nat) (i : nat) : list bool :=
  map (fun l => Nat.eqb l i) labels.

(** [X[mask]] for a boolean mask: numpy raises IndexError when the mask
    does not have one entry per row. *)
Definition bool_index {A} (X : list A) (mask : list bool) : result (list A) :=
  if Nat.eqb (length mask) (length X)
  then Ok (map fst (filter (fun xb => snd xb = true) (zip X mask)))
  else Raise (IndexError "boolean index did not match").

(** [X[idx]] for an integer index array. *)
Definition take_rows {A} (X : list A) (idx : list nat) : result (list A) :=
  match mapM (fun i => X !! i) idx with
  | Some rows => Ok rows
  | None => Raise (IndexError "index out of bounds")
  end.

(** [[X[labels == i].mean(0) for i in range(5)]], without the logging. *)
Definition m_step (X : array) (labels : list nat) : result array :=
  mapM (fun i => sel ← bool_index X (eq_mask labels i); mret (mean0 sel)) (seq 0 5).

(** What the two steps are meant to compute, in the words of the text. *)

(** [l] is the index of a center nearest to [x]:
    [||x - m_l||^2 <= ||x - m_j||^2] for all j. *)
Definition nearest_center (centers : list qpoint) (x : qpoint) (l : nat) : Prop :=
  exists c, centers !! l = Some c /\
    forall c', c' ∈ centers -> (sq_dist x c <= sq_dist x c')%Q.

(** Every row of [X] gets one label, the index of a nearest center. *)
Definition assigns_nearest (X centers : array) (labels : list nat) : Prop :=
  exists xs cs, finite_rows X = Some xs /\ finite_rows centers = Some cs /\
    Forall2 (nearest_center cs) xs labels.

(** The rows of [X] that carry label [i], in order. *)
Definition assigned {A} (X : list A) (labels : list nat) (i : nat) : list A :=
  map fst (filter (fun xl => snd xl = i) (zip X labels)).

Definition Qsum (l : list Q) : Q := foldr Qplus 0%Q l.

(** [1/|S| * sum of the points of S], coordinate by coordinate. *)
Definition arithmetic_mean (pts : list qpoint) : qpoint :=
  ((Qsum (map fst pts) / inject_Z (Z.of_nat (length pts)))%Q,
   (Qsum (map snd pts) / inject_Z (Z.of_nat (length pts)))%Q).

Definition to_point (p : qpoint) : point := (Fin (fst p), Fin (snd p)).

(** Each of the five centers is the arithmetic mean of the (finite,
    non-empty) set of points labelled with its index. *)
Definition recomputes_means (X : array) (labels : list nat) (centers : array) : Prop :=
  forall i, i < 5 ->
    exists pts, finite_rows (assigned X labels i) = Some pts /\ pts <> [] /\
      centers !! i = Some (to_point (arithmetic_mean pts)).


(** One E-step followed by one M-step. *)
Definition kmeans_round (X centers : array) : result (list nat * array) :=
  labels ← pairwise_distances_argmin X centers;
  centers' ← m_step X labels;
  mret (labels, centers').

(** ** Values, objects and the state of a notebook session *)

(** The state of a random generator: freshly seeded, or taken from numpy's
    global generator (what [random_state=None] means). *)
Inductive generator :=
| Seeded (seed : Z)
| FromGlobal (state : Z).

(** The fitted attributes of a GaussianMixture: [weights_], [means_] and
    [covariances_] (one array per component). *)
Record gmm_params := GmmParams {
  weights_ : list float64;
  means_ : array;
  covariances_ : list ndarray
}.

(** Estimator objects live on the heap: [fit] mutates them in place. *)
Inductive estimator :=
| KMeansObj (n_clusters : nat) (random_state : option Z)
            (fitted : option (array * list nat))   (* cluster_centers_, labels_ *)
| GmmObj (n_components : nat) (covariance_type : string) (random_state : option Z)
         (fitted : option gmm_params).

Inductive value :=
| VModule (qualname : string)     (* an imported module, function or class *)
| VFunction (name : string)       (* a function defined by a def statement *)
| VInt (n : nat)
| VFloat (x : float64)
| VStr (s : string)
| VInts (l : list nat)            (* integer array or list *)
| VFloats (l : list float64)      (* one-dimensional float array or list *)
| VStrs (l : list string)
| VArray (a : array)              (* (n, 2) float array, or list of 2-tuples *)
| VMatrix (rows : list (list float64))
| VGenerator (g : generator)      (* np.random.RandomState *)
| VRef (l : nat).                 (* reference to an estimator object *)

(** [Ellipse(xy, width, height, angle, **kwargs)] *)
Record ellipse := Ellipse {
  e_xy : point;
  e_width : ndarray;
  e_height : ndarray;
  e_angle : float64;
  e_kwargs : list (string * value)
}.

(** The drawing commands of pyplot and seaborn used by the notebook. *)
Inductive plot_call :=
| Scatterplot (x y : list float64) (kw : list (string * value))   (* sns.scatterplot *)
| Scatter (x y : list float64) (kw : list (string * value))       (* plt.scatter, ax.scatter *)
| Title (s : string)
| Figure (kw : list (string * value))
| Xlabel (s : string)
| Ylabel (s : string)
| Legend (kw : list (string * value))
| Grid (b : bool)
| Axis (s : string)
| AddPatch (e : ellipse).

(** What leaves the process. *)
Inductive effect :=
| Display (figure : list plot_call)
| FileWrite (path : string) (figure : list plot_call).

Record world := World {
  ns : gmap string value;             (* the kernel's global namespace *)
  heap : gmap nat estimator;          (* estimator objects *)
  global_rng : Z;                     (* numpy's global generator *)
  canvas : list plot_call;            (* pyplot's current figure *)
  effects : list effect;              (* figures shown, files written *)
  log : list (string * option exn)    (* library calls, with the exception raised *)
}.

Definition set_ns (f : gmap string value -> gmap string value) (w : world) : world :=
  World (f (ns w)) (heap w) (global_rng w) (canvas w) (effects w) (log w).
Definition set_heap (f : gmap nat estimator -> gmap nat estimator) (w : world) : world :=
  World (ns w) (f (heap w)) (global_rng w) (canvas w) (effects w) (log w).
Definition set_global_rng (g : Z) (w : world) : world :=
  World (ns w) (heap w) g (canvas w) (effects w) (log w).
Definition set_canvas (c : list plot_call) (w : world) : world :=
  World (ns w) (heap w) (global_rng w) c (effects w) (log w).
Definition add_effect (e : effect) (w : world) : world :=
  World (ns w) (heap w) (global_rng w) (canvas w) (effects w ++ [e]) (log w).
Definition add_log (c : string * option exn) (w : world) : world :=
  World (ns w) (heap w) (global_rng w) (canvas w) (effects w) (log w ++ [c]).

(** ** The monad of cell code: state, and exceptions that keep the state *)

Definition M (A : Type) : Type := world -> result A * world.

#[export] Instance M_ret : MRet M := fun A a w => (Ok a, w).
#[export] Instance M_bind : MBind M := fun A B f m w =>
  match m w with
  | (Ok a, w') => f a w'
  | (Raise e, w') => (Raise e, w')
  end.

Definition raise {A} (e : exn) : M A := fun w => (Raise e, w).

(** A pure computation that may raise. *)
Definition lift {A} (r : result A) : M A := fun w => (r, w).

(** [try: m except Exception as e: h e] -- Python has it; no cell uses it. *)
Definition try_except {A} (m : M A) (h : exn -> M A) : M A := fun w =>
  match m w with
  | (Ok a, w') => (Ok a, w')
  | (Raise e, w') => h e w'
  end.

(** Reading a global name. *)
Definition load (x : string) : M value := fun w =>
  match ns w !! x with
  | Some v => (Ok v, w)
  | None => (Raise (NameError x), w)
  end.

(** Binding a global name. *)
Definition assign (x : string) (v : value) : M unit := fun w =>
  (Ok tt, set_ns <[x:=v]> w).

Definition alloc (o : estimator) : M nat := fun w =>
  let l := fresh (dom (heap w)) in (Ok l, set_heap <[l:=o]> w).

Definition deref (l : nat) : M estimator := fun w =>
  match heap w !! l with
  | Some o => (Ok o, w)
  | None => (Raise (AttributeError "no such object"), w)
  end.

Definition store (l : nat) (o : estimator) : M unit := fun w =>
  (Ok tt, set_heap <[l:=o]> w).

(** A call into a third-party library with result [r]: the call and the
    exception it raises, if any, are logged. *)
Definition libcall {A} (name : string) (r : result A) : M A := fun w =>
  (r, add_log (name, outcome r) w).

Definition get_canvas : M (list plot_call) := fun w => (Ok (canvas w), w).

Definition draw (c : plot_call) : M unit := fun w =>
  (Ok tt, set_canvas (canvas w ++ [c]) w).

(** The current figure is displayed and closed. *)
Definition display : M unit := fun w =>
  (Ok tt, set_canvas [] (add_effect (Display (canvas w)) w)).

Definition write_file (path : string) : M unit := fun w =>
  (Ok tt, add_effect (FileWrite path (canvas w)) w).

(** ** What the libraries compute *)

Class Library := {
  lib_advance : Z -> Z;   (* the global generator after one use *)
  lib_make_blobs_n : nat -> nat -> Q -> generator -> result (array * list nat);
  lib_make_blobs_at : list nat -> array -> list float64 -> generator -> result (array * list nat);
  lib_make_moons : nat -> Q -> generator -> result (array * list nat);
  lib_permutation : generator -> nat -> result (list nat);
  lib_kmeans_fit : nat -> generator -> array -> result (array * list nat);
  lib_kmeans_predict : array -> array -> result (list nat);
  lib_gmm_fit : nat -> string -> generator -> array -> result gmm_params;
  lib_gmm_predict : gmm_params -> array -> result (list nat);
  lib_gmm_predict_proba : gmm_params -> array -> result (list (list float64));
  lib_svd : mat2 -> result (mat2 * (float64 * float64) * mat2);
  lib_arctan2 : float64 -> float64 -> float64;
  lib_degrees : float64 -> float64;
  lib_sqrt : float64 -> float64;
  lib_ellipse : ellipse -> option exn;                      (* does Ellipse(...) raise? *)
  lib_plot : plot_call -> list plot_call -> option exn;     (* does a drawing call raise? *)
  lib_show : list plot_call -> option exn                   (* does plt.show() raise? *)
}.

Definition raises (o : option exn) : result unit :=
  match o with
  | Some e => Raise e
  | None => Ok tt
  end.

Section Notebook.
Context `{Library}.

(** [sklearn.utils.check_random_state]: an integer seeds a fresh generator,
    [None] takes (and advances) numpy's global one. *)
Definition check_random_state (random_state : option Z) : M generator :=
  match random_state with
  | Some seed => mret (Seeded seed)
  | None => fun w =>
      (Ok (FromGlobal (global_rng w)), set_global_rng (lib_advance (global_rng w)) w)
  end.

(** *** Names *)

Definition import (name qualname : string) : M unit := assign name (VModule qualname).
Definition def (name : string) : M unit := assign name (VFunction name).
Definition use (name : string) : M unit := load name ≫= fun _ => mret tt.

Definition get_array (name : string) : M array :=
  v ← load name;
  match v with
  | VArray a => mret a
  | _ => raise (TypeError name)
  end.

Definition get_ints (name : string) : M (list nat) :=
  v ← load name;
  match v with
  | VInts l => mret l
  | _ => raise (TypeError name)
  end.

Definition get_floats (name : string) : M (list float64) :=
  v ← load name;
  match v with
  | VFloats l => mret l
  | _ => raise (TypeError name)
  end.

Definition get_strs (name : string) : M (list string) :=
  v ← load name;
  match v with
  | VStrs l => mret l
  | _ => raise (TypeError name)
  end.

Definition get_generator (name : string) : M generator :=
  v ← load name;
  match v with
  | VGenerator g => mret g
  | _ => raise (TypeError name)
  end.

Definition get_ref (name : string) : M nat :=
  v ← load name;
  match v with
  | VRef l => mret l
  | _ => raise (TypeError name)
  end.

(** *** numpy *)

Definition RandomState (seed : Z) : M generator :=
  libcall "np.random.RandomState" (Ok (Seeded seed)).

Definition permutation (g : generator) (n : nat) : M (list nat) :=
  libcall "RandomState.permutation" (lib_permutation g n).

Definition nd_mean0 (a : array) : M point := libcall "ndarray.mean" (Ok (mean0 a)).

Definition np_array (rows : list point) : M array := libcall "np.array" (Ok rows).

(** [a.max()] of a one-dimensional array: refused when it is empty. *)
Definition max_of (l : list float64) : result float64 :=
  match l with
  | [] => Raise (ValueError "zero-size array to reduction operation maximum")
  | x :: l' => Ok (foldl fmax x l')
  end.

Definition nd_max (l : list float64) : M float64 := libcall "ndarray.max" (max_of l).

(** [a.max(1)]: the maximum of each row. *)
Definition nd_max1 (rows : list (list float64)) : M (list float64) :=
  libcall "ndarray.max" (mapM max_of rows).

Definition np_sqrt (a : ndarray) : M ndarray := libcall "np.sqrt" (Ok (nd_map lib_sqrt a)).

Definition np_arctan2 (y x : float64) : M float64 := libcall "np.arctan2" (Ok (lib_arctan2 y x)).

Definition np_degrees (x : float64) : M float64 := libcall "np.degrees" (Ok (lib_degrees x)).

Definition np_linalg_svd (m : mat2) : M (mat2 * (float64 * float64) * mat2) :=
  libcall "np.linalg.svd" (lib_svd m).

(** [a, b = arr]: iterating over the first axis must give exactly two items. *)
Definition unpack2 (a : ndarray) : result (ndarray * ndarray) :=
  match a with
  | Scalar _ => Raise (TypeError "cannot unpack a 0-d array")
  | Vector [x; y] => Ok (Scalar x, Scalar y)
  | Matrix [r1; r2] => Ok (Vector r1, Vector r2)
  | _ => Raise (ValueError "wrong number of values to unpack")
  end.

(** *** scikit-learn *)

(** [make_blobs] with a number of samples, a number of centers and one
    standard deviation, as the first and the fifth code cell call it. *)
Definition make_blobs_n (n_samples centers : nat) (cluster_std : Q)
    (random_state : option Z) : M (array * list nat) :=
  g ← check_random_state random_state;
  libcall "make_blobs" (lib_make_blobs_n n_samples centers cluster_std g).

(** [make_blobs] with a list of sample counts, a list of center coordinates
    and a list of standard deviations, as the fourth code cell calls it. *)
Definition make_blobs_at (n_samples : list nat) (centers : array) (cluster_std : list float64)
    (random_state : option Z) : M (array * list nat) :=
  g ← check_random_state random_state;
  libcall "make_blobs" (lib_make_blobs_at n_samples centers cluster_std g).

Definition make_moons (n_samples : nat) (noise : Q) (random_state : option Z)
    : M (array * list nat) :=
  g ← check_random_state random_state;
  libcall "make_moons" (lib_make_moons n_samples noise g).

Definition KMeans (n_clusters : nat) (random_state : option Z) : M nat :=
  libcall "KMeans" (Ok tt);;
  alloc (KMeansObj n_clusters random_state None).

Definition GaussianMixture (n_components : nat) (covariance_type : string)
    (random_state : option Z) : M nat :=
  libcall "GaussianMixture" (Ok tt);;
  alloc (GmmObj n_components covariance_type random_state None).

(** [est.fit(X)]: fits the object in place and returns it. *)
Definition fit (l : nat) (X : array) : M nat :=
  o ← deref l;
  match o with
  | KMeansObj k rs _ =>
      g ← check_random_state rs;
      r ← libcall "KMeans.fit" (lib_kmeans_fit k g X);
      store l (KMeansObj k rs (Some r));;
      mret l
  | GmmObj k ct rs _ =>
      g ← check_random_state rs;
      r ← libcall "GaussianMixture.fit" (lib_gmm_fit k ct g X);
      store l (GmmObj k ct rs (Some r));;
      mret l
  end.

(** [est.predict(X)] *)
Definition predict (l : nat) (X : array) : M (list nat) :=
  o ← deref l;
  match o with
  | KMeansObj _ _ (Some (centers, _)) =>
      libcall "KMeans.predict" (lib_kmeans_predict centers X)
  | KMeansObj _ _ None => libcall "KMeans.predict" (Raise NotFittedError)
  | GmmObj _ _ _ (Some p) => libcall "GaussianMixture.predict" (lib_gmm_predict p X)
  | GmmObj _ _ _ None => libcall "GaussianMixture.predict" (Raise NotFittedError)
  end.

(** [KMeans(...).fit_predict(X)]: fit, then the labels of the training data. *)
Definition fit_predict (l : nat) (X : array) : M (list nat) :=
  o ← deref l;
  match o with
  | KMeansObj k rs _ =>
      g ← check_random_state rs;
      r ← libcall "KMeans.fit_predict" (lib_kmeans_fit k g X);
      store l (KMeansObj k rs (Some r));;
      mret (snd r)
  | GmmObj _ _ _ _ => raise (AttributeError "fit_predict")
  end.

(** [gmm.predict_proba(X)] *)
Definition predict_proba (l : nat) (X : array) : M (list (list float64)) :=
  o ← deref l;
  match o with
  | GmmObj _ _ _ (Some p) =>
      libcall "GaussianMixture.predict_proba" (lib_gmm_predict_proba p X)
  | GmmObj _ _ _ None => libcall "GaussianMixture.predict_proba" (Raise NotFittedError)
  | KMeansObj _ _ _ => raise (AttributeError "predict_proba")
  end.

(** The fitted attributes of a mixture ([gmm.weights_] and the like). *)
Definition fitted_params (l : nat) : M gmm_params :=
  o ← deref l;
  match o with
  | GmmObj _ _ _ (Some p) => mret p
  | _ => raise (AttributeError "weights_")
  end.

(** *** matplotlib and seaborn *)

(** A drawing call: it may raise; otherwise it adds to the current figure. *)
Definition plot (name : string) (c : plot_call) : M unit :=
  cv ← get_canvas;
  libcall name (raises (lib_plot c cv));;
  draw c.

Definition plt_show : M unit :=
  cv ← get_canvas;
  libcall "plt.show" (raises (lib_show cv));;
  display.

(** [plt.savefig(path)]: part of pyplot, called by no cell. *)
Definition plt_savefig (path : string) : M unit :=
  libcall "plt.savefig" (Ok tt);;
  write_file path.

Definition plt_gca : M unit := libcall "plt.gca" (Ok tt).

Definition new_ellipse (e : ellipse) : M ellipse :=
  libcall "Ellipse" (raises (lib_ellipse e));;
  mret e.

(** *** Cell 2ce9cf71: the k-Means illustration *)

(** Function to perform one iteration of the k-Means EM step. *)
Definition plot_kmeans_step (X centers : array) (step_title : string) : M (list nat) :=
  use "pairwise_distances_argmin";;
  labels ← libcall "pairwise_distances_argmin" (pairwise_distances_argmin X centers);
  use "plt";;
  plot "plt.scatter" (Scatter (col0 X) (col1 X)
    [("c", VInts labels); ("s", VInt 50); ("cmap", VStr "plasma")]);;
  use "sns";;
  plot "sns.scatterplot" (Scatterplot (col0 centers) (col1 centers)
    [("color", VStr "black"); ("s", VInt 200); ("alpha", VFloat (Fin 0.5))]);;
  use "plt";;
  plot "plt.title" (Title step_title);;
  use "plt";;
  plt_show;;
  mret labels.

(** [plot_kmeans_step(X, centers, title)] at the top level of the cell. *)
Definition call_plot_kmeans_step (step_title : string) : M (list nat) :=
  use "plot_kmeans_step";;
  X ← get_array "X";
  centers ← get_array "centers";
  plot_kmeans_step X centers step_title.

(** [X[labels == i].mean(0)], the element of the comprehension. *)
Definition cluster_mean (i : nat) : M point :=
  X ← get_array "X";
  labels ← get_ints "labels";
  sel ← lift (bool_index X (eq_mask labels i));
  nd_mean0 sel.

(** [centers = np.array([X[labels == i].mean(0) for i in range(5)])] *)
Definition recompute_centers : M unit :=
  use "np";;
  rows ← mapM cluster_mean (seq 0 5);
  centers ← np_array rows;
  assign "centers" (VArray centers).

(** [labels = plot_kmeans_step(X, centers, title)] *)
Definition e_step (step_title : string) : M unit :=
  labels ← call_plot_kmeans_step step_title;
  assign "labels" (VInts labels).

(** The M-step and the plot that follows it. *)
Definition m_step_shown (step_title : string) : M unit :=
  recompute_centers;;
  call_plot_kmeans_step step_title;;
  mret tt.

Definition cell_kmeans_steps : M unit :=
  import "np" "numpy";;
  import "pairwise_distances_argmin" "sklearn.metrics.pairwise_distances_argmin";;
  import "make_blobs" "sklearn.datasets.make_blobs";;
  import "sns" "seaborn";;
  import "plt" "matplotlib.pyplot";;
  use "make_blobs";;
  '(X, y_true) ← make_blobs_n 300 5 0.6 (Some 1%Z);
  assign "X" (VArray X);;
  assign "y_true" (VInts y_true);;
  use "sns";;
  X ← get_array "X";
  plot "sns.scatterplot" (Scatterplot (col0 X) (col1 X) [("s", VInt 50)]);;
  use "plt";;
  plt_show;;
  def "plot_kmeans_step";;
  (* Step 1: random initialization of cluster centers *)
  use "np";;
  rng ← RandomState 1;
  assign "rng" (VGenerator rng);;
  rng ← get_generator "rng";
  X ← get_array "X";
  perm ← permutation rng (length X);
  assign "i" (VInts (take 5 perm));;
  X ← get_array "X";
  i ← get_ints "i";
  centers ← lift (take_rows X i);
  assign "centers" (VArray centers);;
  call_plot_kmeans_step "Initial Random Cluster Centers";;
  (* Steps 2 to 7: three E-steps, each followed by an M-step *)
  e_step "First E-Step: Assign Points to Nearest Cluster";;
  m_step_shown "First M-Step: Recalculate Cluster Centers";;
  e_step "Second E-Step: Assign Points to Nearest Cluster";;
  m_step_shown "Second M-Step: Recalculate Cluster Centers";;
  e_step "Third E-Step: Assign Points to Nearest Cluster";;
  m_step_shown "Third M-Step: Recalculate Cluster Centers".

(** *** Cell c6853344: k-Means with three clusters *)

(** [plt.scatter(X[:, 0], X[:, 1], c=labels, s=.., cmap='plasma'); ...; plt.show()] *)
Definition scatter_labelled (s : nat) (title : option string) : M unit :=
  use "plt";;
  X ← get_array "X";
  labels ← get_ints "labels";
  plot "plt.scatter" (Scatter (col0 X) (col1 X)
    [("c", VInts labels); ("s", VInt s); ("cmap", VStr "plasma")]);;
  match title with
  | Some t => use "plt";; plot "plt.title" (Title t)
  | None => mret tt
  end;;
  use "plt";;
  plt_show.

(** [labels = KMeans(k, random_state=0).fit_predict(X)] *)
Definition kmeans_labels (k : nat) : M unit :=
  use "KMeans";;
  km ← KMeans k (Some 0%Z);
  X ← get_array "X";
  labels ← fit_predict km X;
  assign "labels" (VInts labels).

Definition cell_kmeans3 : M unit :=
  import "KMeans" "sklearn.cluster.KMeans";;
  kmeans_labels 3;;
  scatter_labelled 50 None.

(** *** Cell 62ad9948: two crescents *)

Definition cell_moons : M unit :=
  import "make_moons" "sklearn.datasets.make_moons";;
  use "make_moons";;
  '(X, y) ← make_moons 200 0.05 (Some 42%Z);
  assign "X" (VArray X);;
  assign "y" (VInts y);;
  kmeans_labels 2;;
  scatter_labelled 50 None.

(** *** Cell c3ac760f: blobs of different sizes *)

(** The body of [for i in range(3)]. *)
Definition scatter_original (i : nat) : M unit :=
  assign "i" (VInt i);;
  use "plt";;
  X ← get_array "X";
  y ← get_ints "y";
  sel ← lift (bool_index X (eq_mask y i));
  markers ← get_strs "markers";
  marker ← lift (match markers !! i with
                 | Some m => Ok m
                 | None => Raise (IndexError "list index out of range")
                 end);
  plot "plt.scatter" (Scatter (col0 sel) (col1 sel)
    [("c", VInts (replicate (length sel) i));
     ("label", VStr ("Cluster " +:+ pretty (i + 1) +:+ " (Original)"));
     ("marker", VStr marker); ("edgecolor", VStr "k");
     ("s", VInt 50); ("cmap", VStr "plasma")]).

Definition cell_sizes : M unit :=
  assign "n_samples" (VInts [600; 100; 100]);;
  assign "centers" (VArray [(Fin 0, Fin 0); (Fin 3, Fin 3); (Fin (-3), Fin 3)]);;
  assign "cluster_std" (VFloats [Fin 2; Fin 0.5; Fin 0.5]);;
  use "make_blobs";;
  n_samples ← get_ints "n_samples";
  centers ← get_array "centers";
  cluster_std ← get_floats "cluster_std";
  '(X, y) ← make_blobs_at n_samples centers cluster_std (Some 1%Z);
  assign "X" (VArray X);;
  assign "y" (VInts y);;
  kmeans_labels 3;;
  assign "markers" (VStrs ["o"; "s"; "D"]);;
  use "plt";;
  plot "plt.figure" (Figure [("figsize", VInts [8; 6])]);;
  mapM scatter_original (seq 0 3);;
  use "plt";;
  X ← get_array "X";
  labels ← get_ints "labels";
  plot "plt.scatter" (Scatter (col0 X) (col1 X)
    [("c", VInts labels); ("s", VInt 20); ("cmap", VStr "plasma");
     ("alpha", VFloat (Fin 0.4))]);;
  use "plt";;
  plot "plt.title" (Title "Generated Blobs with Original Labels and KMeans Clustering");;
  use "plt";;
  plot "plt.xlabel" (Xlabel "Feature 1");;
  use "plt";;
  plot "plt.ylabel" (Ylabel "Feature 2");;
  use "plt";;
  plot "plt.legend" (Legend [("loc", VStr "upper right")]);;
  use "plt";;
  plot "plt.grid" (Grid true);;
  use "plt";;
  plt_show.

(** *** Cell 332af971: the data of the mixture-model illustrations *)

Definition cell_gmm_data : M unit :=
  import "make_blobs" "sklearn.datasets.make_blobs";;
  import "plt" "matplotlib.pyplot";;
  use "make_blobs";;
  '(X, y_true) ← make_blobs_n 400 4 0.6 (Some 0%Z);
  assign "X" (VArray X);;
  assign "y_true" (VInts y_true);;
  X ← get_array "X";
  assign "X" (VArray (flip_columns X));;
  use "plt";;
  X ← get_array "X";
  plot "plt.scatter" (Scatter (col0 X) (col1 X) [("s", VInt 40)]);;
  use "plt";;
  plot "plt.title" (Title "Generated Data with Four Clusters");;
  use "plt";;
  plt_show.

(** *** Cell 6a71fecf: k-Means with four clusters *)

(** [labels = est.fit(X).predict(X)] for the estimator bound to [name]. *)
Definition fit_then_predict (name : string) : M unit :=
  est ← get_ref name;
  X ← get_array "X";
  est ← fit est X;
  X ← get_array "X";
  labels ← predict est X;
  assign "labels" (VInts labels).

Definition cell_kmeans4 : M unit :=
  import "KMeans" "sklearn.cluster.KMeans";;
  use "KMeans";;
  km ← KMeans 4 (Some 0%Z);
  assign "kmeans" (VRef km);;
  fit_then_predict "kmeans";;
  scatter_labelled 40 (Some "k-Means Clustering with Limitations").

(** *** Cell 80f5fa89: the Gaussian mixture *)

Definition cell_gmm_fit : M unit :=
  import "GaussianMixture" "sklearn.mixture.GaussianMixture";;
  use "GaussianMixture";;
  gmm ← GaussianMixture 4 "full" (Some 42%Z);
  assign "gmm" (VRef gmm);;
  fit_then_predict "gmm";;
  scatter_labelled 40 (Some "Gaussian Mixture Model Clustering").

(** *** Cell bc039b2c: the probabilistic assignment *)

Definition cell_gmm_proba : M unit :=
  gmm ← get_ref "gmm";
  X ← get_array "X";
  probs ← predict_proba gmm X;
  assign "probs" (VMatrix probs);;
  probs ← load "probs";
  rows ← match probs with
         | VMatrix rows => mret rows
         | _ => raise (TypeError "probs")
         end;
  maxima ← nd_max1 rows;
  (* size = 50 * probs.max(1) ** 2 *)
  assign "size" (VFloats (map (fun m => fmul (of_nat 50) (fmul m m)) maxima));;
  use "plt";;
  X ← get_array "X";
  labels ← get_ints "labels";
  size ← get_floats "size";
  plot "plt.scatter" (Scatter (col0 X) (col1 X)
    [("c", VInts labels); ("s", VFloats size); ("cmap", VStr "plasma")]);;
  use "plt";;
  plot "plt.title" (Title "GMM Probabilistic Cluster Assignment");;
  use "plt";;
  plt_show.

(** *** Cell 48db8ef9: the ellipses of the mixture components *)

(** Draw an ellipse with a given position and covariance.  [ax] is [true]
    when the caller passes an axes object; otherwise [plt.gca()] is used. *)
Definition draw_ellipse (position : point) (covariance : ndarray) (ax : bool)
    (kwargs : list (string * value)) : M unit :=
  (if ax then mret tt else use "plt";; plt_gca);;
  '(angle, (width, height)) ←
    match as_mat2 covariance with
    | Some m =>   (* covariance.shape == (2, 2) *)
        use "np";;
        '(U, s, Vt) ← np_linalg_svd m;
        use "np";;
        use "np";;
        a ← np_arctan2 (fst (snd U)) (fst (fst U));
        angle ← np_degrees a;
        use "np";;
        r ← np_sqrt (Vector [fst s; snd s]);
        wh ← lift (unpack2 (nd_scale 2 r));
        mret (angle, wh)
    | None =>
        use "np";;
        r ← np_sqrt covariance;
        wh ← lift (unpack2 (nd_scale 2 r));
        mret (Fin 0, wh)
    end;
  mapM (fun nsig =>
          use "Ellipse";;
          e ← new_ellipse (Ellipse position (nd_scale nsig width) (nd_scale nsig height)
                 angle kwargs);
          plot "ax.add_patch" (AddPatch e)) (seq 1 3);;
  mret tt.

(** The three ellipses, scaled by 1, 2 and 3, of one call. *)
Definition sigma_patches (position : point) (width height : ndarray) (angle : float64)
    (kwargs : list (string * value)) : list plot_call :=
  map (fun nsig => AddPatch (Ellipse position (nd_scale nsig width) (nd_scale nsig height)
                               angle kwargs)) (seq 1 3).

Definition plot_gmm (gmm : nat) (X : array) (label : bool) (ax : bool) : M unit :=
  (if ax then mret tt else use "plt";; plt_gca);;
  gmm' ← fit gmm X;
  labels ← predict gmm' X;
  (if label
   then plot "ax.scatter" (Scatter (col0 X) (col1 X)
          [("c", VInts labels); ("s", VInt 40); ("cmap", VStr "plasma"); ("zorder", VInt 2)])
   else plot "ax.scatter" (Scatter (col0 X) (col1 X) [("s", VInt 40); ("zorder", VInt 2)]));;
  plot "ax.axis" (Axis "equal");;
  p ← fitted_params gmm;
  wmax ← nd_max (weights_ p);
  let w_factor := fdiv (Fin 0.2) wmax in
  mapM (fun '(pos, covar, w) =>
          use "draw_ellipse";;
          draw_ellipse pos covar false [("alpha", VFloat (fmul w w_factor))])
       (zip (zip (means_ p) (covariances_ p)) (weights_ p));;
  mret tt.

Definition cell_gmm_ellipses : M unit :=
  import "Ellipse" "matplotlib.patches.Ellipse";;
  import "np" "numpy";;
  def "draw_ellipse";;
  def "plot_gmm";;
  use "GaussianMixture";;
  gmm ← GaussianMixture 4 "full" (Some 42%Z);
  assign "gmm" (VRef gmm);;
  use "plot_gmm";;
  gmm ← get_ref "gmm";
  X ← get_array "X";
  plot_gmm gmm X true false;;
  use "plt";;
  plot "plt.title" (Title "GMM with Elliptical Cluster Boundaries");;
  use "plt";;
  plt_show.

(** *** The notebook, top to bottom *)

Definition cells : list (M unit) :=
  [cell_kmeans_steps; cell_kmeans3; cell_moons; cell_sizes; cell_gmm_data;
   cell_kmeans4; cell_gmm_fit; cell_gmm_proba; cell_gmm_ellipses].

(** Running cells one after the other: a cell that raises stops the run. *)
Definition run (cs : list (M unit)) : M unit := foldr (fun c rest => c;; rest) (mret tt) cs.

(** Run All. *)
Definition run_all : M unit := run cells.

End Notebook.

(** ** Properties of cell code *)

(** The library calls that running [m] from [w] adds to the log. *)
Definition calls {A} (m : M A) (w : world) : list (string * option exn) :=
  drop (length (log w)) (log (snd (m w))).

(** Whatever a library call raises is what [m] raises: nothing catches,
    replaces or swallows it. *)
Definition propagates (A : Type) (m : M A) : Prop :=
  forall w, exists l, log (snd (m w)) = log w ++ l /\
    forall c e, (c, Some e) ∈ l -> fst (m w) = Raise e.

Definition is_display (e : effect) : Prop := exists figure, e = Display figure.

(** All that leaves the process while [m] runs is figures being shown. *)
Definition display_only (A : Type) (m : M A) : Prop :=
  forall w, exists evs, effects (snd (m w)) = effects w ++ evs /\ Forall is_display evs.

Definition estimator_seed (o : estimator) : option Z :=
  match o with
  | KMeansObj _ rs _ => rs
  | GmmObj _ _ rs _ => rs
  end.

(** Every estimator object was given an integer [random_state]. *)
Definition heap_seeded (w : world) : Prop :=
  forall l o, heap w !! l = Some o -> is_Some (estimator_seed o).

(** [m] neither reads nor advances numpy's global generator. *)
Definition seeded (A : Type) (m : M A) : Prop :=
  forall w, heap_seeded w ->
    heap_seeded (snd (m w)) /\
    forall g, m (set_global_rng g w) = (fst (m w), set_global_rng g (snd (m w))).




(** Running [draw_ellipse] from [w] adds exactly three ellipse patches,
    scaled by 1, 2 and 3, to the current figure. *)
Definition adds_three_patches `{Library} (position : point) (covariance : ndarray)
    (ax : bool) (kwargs : list (string * value)) (w : world) : Prop :=
  exists angle width height,
    canvas (snd (draw_ellipse position covariance ax kwargs w))
    = canvas w ++ sigma_patches position width height angle kwargs.

(** [m] amounts to a single call into a library. *)
Definition single_library_call {A} (m : M A) : Prop :=
  forall w, length (calls m w) = 1.

Definition empty_world (g : Z) : world := World ∅ ∅ g [] [] [].

(** A session in which [np], [plt], [Ellipse], five data points [X] and
    their [labels] are bound; index 4 labels no point. *)
Definition toy_session : world :=
  World (<["np" := VModule "numpy"]>
         (<["plt" := VModule "matplotlib.pyplot"]>
         (<["Ellipse" := VModule "matplotlib.patches.Ellipse"]>
         (<["X" := VArray [(Fin 0, Fin 0); (Fin 2, Fin 0); (Fin 10, Fin 0);
                           (Fin 0, Fin 10); (Fin 10, Fin 10)]]>
         (<["labels" := VInts [0; 0; 1; 2; 3]]> ∅)))))
        ∅ 0 [] [] [].

(** A property of cell code that holds of the operations the notebook is
    written with and is preserved by sequencing. *)
Class Compositional `{Library} (P : forall A, M A -> Prop) := {
  comp_ret : forall A (a : A), P A (mret a);
  comp_bind : forall A B (m : M A) (f : A -> M B),
    P A m -> (forall a, P B (f a)) -> P B (m ≫= f);
  comp_raise : forall A e, P A (raise e);
  comp_lift : forall A (r : result A), P A (lift r);
  comp_load : forall x, P _ (load x);
  comp_assign : forall x v, P _ (assign x v);
  comp_deref : forall l, P _ (deref l);
  comp_libcall : forall A name (r : result A), P A (libcall name r);
  comp_get_canvas : P _ get_canvas;
  comp_draw : forall c, P _ (draw c);
  comp_display : P _ display;
  comp_check_random_state : forall seed, P _ (check_random_state (Some seed));
  comp_KMeans : forall k seed, P _ (KMeans k (Some seed));
  comp_GaussianMixture : forall k ct seed, P _ (GaussianMixture k ct (Some seed));
  comp_fit : forall l X, P _ (fit l X);
  comp_fit_predict : forall l X, P _ (fit_predict l X)
}.

(** ** A small library instance, to run the cells on

    Data sets are laid out on a grid, "fitting" takes the first rows as
    centers, and drawing never fails unless told to. *)

Definition generator_state (g : generator) : Z :=
  match g with
  | Seeded s => s
  | FromGlobal s => s
  end.

(** [n] points in [c] columns of the grid, shifted by the generator. *)
Definition grid_blobs (n c : nat) (g : generator) : array * list nat :=
  (map (fun i => (Fin (inject_Z (10 * Z.of_nat (i mod c) + generator_state g)),
                  Fin (inject_Z (Z.of_nat (i / c))))) (seq 0 n),
   map (fun i => i mod c) (seq 0 n)).

Definition unit_covariance : ndarray := Matrix [[Fin 1; Fin 0]; [Fin 0; Fin 1]].

Definition grid_library (show_raises : option exn) : Library := {|
  lib_advance := Z.succ;
  lib_make_blobs_n := fun n c _ g => Ok (grid_blobs n c g);
  lib_make_blobs_at := fun ns cs _ g => Ok (grid_blobs (list_sum ns) (length cs) g);
  lib_make_moons := fun n _ g => Ok (grid_blobs n 2 g);
  lib_permutation := fun _ n => Ok (seq 0 n);
  lib_kmeans_fit := fun k _ X =>
    labels ← pairwise_distances_argmin X (take k X); Ok (take k X, labels);
  lib_kmeans_predict := fun centers X => pairwise_distances_argmin X centers;
  lib_gmm_fit := fun k _ _ X =>
    Ok (GmmParams (replicate k (fdiv (Fin 1) (of_nat k))) (take k X)
                  (replicate k unit_covariance));
  lib_gmm_predict := fun p X => pairwise_distances_argmin X (means_ p);
  lib_gmm_predict_proba := fun p X => Ok (map (fun _ => weights_ p) X);
  lib_svd := fun m => Ok (((Fin 1, Fin 0), (Fin 0, Fin 1)),
                          (fst (fst m), snd (snd m)),
                          ((Fin 1, Fin 0), (Fin 0, Fin 1)));
  lib_arctan2 := fun _ _ => Fin 0;
  lib_degrees := fun x => fmul x (Fin (180 / 3.14159));
  lib_sqrt := fun x => x;
  lib_ellipse := fun _ => None;
  lib_plot := fun _ _ => None;
  lib_show := fun _ => show_raises
|}.

(** A diagonal data matrix with its decomposition, and a mixture of two
    components, to instantiate the statements about the formulas. *)

Definition diag_matrix (i j : nat) : R :=
  match i, j with
  | 0, 0 => 3%R
  | 1, 1 => 2%R
  | _, _ => 0%R
  end.

Definition diag_factors : svd_factors :=
  SvdFactors 2 2 2 delta (fun c => match c with 0 => 3%R | _ => 2%R end) delta.

Definition two_blobs : list gaussian :=
  [Gaussian (1 / 2)%R (0, 0)%R ((1, 0), (0, 1))%R;
   Gaussian (1 / 2)%R (4, 4)%R ((2, 1), (1, 2))%R].


(** ** The M-step of the mixture model, from the comparison table *)

(** [N_k = sum_n gamma_nk], the estimated number of members of a component. *)
Definition member_count (gmm : list gaussian) (X : list (R * R)) (g : gaussian) : R :=
  Rlist_sum (map (fun x => responsibility gmm x g) X).

(** [P_k^new = N_k / N] *)
Definition new_mix (gmm : list gaussian) (X : list (R * R)) (g : gaussian) : R :=
  (member_count gmm X g / INR (length X))%R.

(** [mu_k^new = 1/N_k sum_n gamma_nk x_n], coordinate by coordinate. *)
Definition new_mu (gmm : list gaussian) (X : list (R * R)) (g : gaussian) : R * R :=
  ((Rlist_sum (map (fun x => responsibility gmm x g * fst x) X) / member_count gmm X g)%R,
   (Rlist_sum (map (fun x => responsibility gmm x g * snd x) X) / member_count gmm X g)%R).

(** A covariance matrix: symmetric and positive definite. *)
Definition positive_definite (s : (R * R) * (R * R)) : Prop :=
  snd (fst s) = fst (snd s) /\ (0 < fst (fst s))%R /\ (0 < det2 s)%R.

(** ** Sessions and counts for the statements about the cells *)

(** [toy_session] with the two names that [plot_kmeans_step] needs. *)
Definition illustration_session : world :=
  set_ns (fun n => <["plot_kmeans_step" := VFunction "plot_kmeans_step"]>
                   (<["pairwise_distances_argmin" :=
                        VModule "sklearn.metrics.pairwise_distances_argmin"]>
                   (<["sns" := VModule "seaborn"]> n))) toy_session.


(** [m] touches nothing but the current figure and the log of library
    calls, whether it returns or raises. *)
Definition only_draws {A} (m : M A) : Prop :=
  forall w, ns (snd (m w)) = ns w /\ heap (snd (m w)) = heap w /\
            global_rng (snd (m w)) = global_rng w /\ effects (snd (m w)) = effects w.

(** All that [m] does to the current figure is to add ellipse patches. *)
Definition adds_patches {A} (m : M A) : Prop :=
  forall w, exists patches, canvas (snd (m w)) = canvas w ++ patches /\
    Forall (fun c => exists e, c = AddPatch e) patches.

Section Estimators.
Context `{Library}.

(** [o'] is the object [o] after [o.fit(X)]: the hyper-parameters are kept
    and the fitted attributes are those the library computes from [X], with
    a generator seeded by the object's own [random_state] when it has one. *)
Definition refitted (X : array) (o o' : estimator) : Prop :=
  match o with
  | KMeansObj k rs _ =>
      exists g r, (forall seed, rs = Some seed -> g = Seeded seed) /\
        lib_kmeans_fit k g X = Ok r /\ o' = KMeansObj k rs (Some r)
  | GmmObj k ct rs _ =>
      exists g p, (forall seed, rs = Some seed -> g = Seeded seed) /\
        lib_gmm_fit k ct g X = Ok p /\ o' = GmmObj k ct rs (Some p)
  end.

(** [labels] is what [o.predict(X)] returns for the fitted object [o]. *)
Definition predicted_by (o : estimator) (X : array) (labels : list nat) : Prop :=
  match o with
  | KMeansObj _ _ (Some (centers, _)) => lib_kmeans_predict centers X = Ok labels
  | GmmObj _ _ _ (Some p) => lib_gmm_predict p X = Ok labels
  | _ => False
  end.

End Estimators.

(** [toy_session] with a k-Means estimator bound to [kmeans], a mixture bound
    to [gmm], both not yet fitted, and the name [draw_ellipse]. *)
Definition estimators_session : world :=
  set_heap (fun h => <[0 := KMeansObj 2 (Some 0%Z) None]>
                     (<[1 := GmmObj 2 "full" (Some 42%Z) None]> h))
    (set_ns (fun n => <["kmeans" := VRef 0]> (<["gmm" := VRef 1]>
                      (<["draw_ellipse" := VFunction "draw_ellipse"]> n))) toy_session).

(** A probability, as a float. *)
Definition probability (v : float64) : Prop :=
  exists q, v = Fin q /\ (0 <= q)%Q /\ (q <= 1)%Q.

(** A marker size between 0 and 50. *)
Definition marker_size (v : float64) : Prop :=
  exists q, v = Fin q /\ (0 <= q)%Q /\ (q <= 50)%Q.
(** * Facts *)

(** ** Finite sums *)

Section Sums.
Local Open Scope R_scope.

Lemma rsum_ext n f g : (forall i, (i < n)%nat -> f i = g i) -> rsum n f = rsum n g.
Proof.
  induction n as [|n IH]; intros Hfg; simpl; [reflexivity|].
  rewrite IH, Hfg by (intros; try apply Hfg; lia). reflexivity.
Qed.

Lemma rsum_proper n : Proper (pointwise_relation nat eq ==> eq) (rsum n).
Proof. intros f g Hfg. apply rsum_ext. intros; apply Hfg. Qed.

Lemma rsum_zero n : rsum n (fun _ => 0) = 0.
Proof. induction n; simpl; lra. Qed.

Lemma rsum_add n f g : rsum n (fun i => f i + g i) = rsum n f + rsum n g.
Proof. induction n; simpl; lra. Qed.

Lemma rsum_scale n c f : rsum n (fun i => c * f i) = c * rsum n f.
Proof. induction n; simpl; [|rewrite IHn]; lra. Qed.

Lemma rsum_swap n m (f : nat -> nat -> R) :
  rsum n (fun i => rsum m (fun j => f i j)) = rsum m (fun j => rsum n (fun i => f i j)).
Proof.
  induction n as [|n IH]; simpl.
  - now rewrite rsum_zero.
  - rewrite IH, <- rsum_add. reflexivity.
Qed.

Lemma rsum_mul n m f g :
  rsum n f * rsum m g = rsum n (fun i => rsum m (fun j => f i * g j)).
Proof.
  induction n as [|n IH]; simpl; [lra|].
  rewrite <- IH, rsum_scale. lra.
Qed.

Lemma rsum_le n f g : (forall i, (i < n)%nat -> f i <= g i) -> rsum n f <= rsum n g.
Proof.
  induction n as [|n IH]; intros Hfg; simpl; [lra|].
  pose proof (Hfg n ltac:(lia)). pose proof (IH ltac:(intros; apply Hfg; lia)). lra.
Qed.

Lemma rsum_delta n a f : (a < n)%nat -> rsum n (fun c => delta a c * f c) = f a.
Proof.
  induction n as [|n IH]; intros Ha; [lia|]. simpl.
  destruct (Nat.eq_dec a n) as [->|Hne].
  - unfold delta at 2. rewrite Nat.eqb_refl.
    rewrite (rsum_ext n _ (fun _ => 0)), rsum_zero; [lra|].
    intros i Hi. unfold delta. destruct (Nat.eqb_spec n i); [lia|lra].
  - rewrite IH by lia. unfold delta. destruct (Nat.eqb_spec a n); [lia|lra].
Qed.

(** What a truncation at rank [k] leaves out of a sum over all components. *)
Lemma rsum_min_dropped k r f :
  rsum r f - rsum (Nat.min k r) f = rsum r (fun c => dropped k c * f c).
Proof.
  induction r as [|r IH]; simpl.
  - rewrite Nat.min_0_r. simpl. lra.
  - unfold dropped at 2. destruct (Nat.leb_spec k r).
    + rewrite <- IH. replace (Nat.min k (S r)) with (Nat.min k r) by lia. lra.
    + replace (Nat.min k (S r)) with (S (Nat.min k r)) by lia. simpl.
      replace (Nat.min k r) with r in * by lia.
      rewrite <- IH. lra.
Qed.

End Sums.

(** ** Truncated reconstruction *)

Section Truncation.
Local Open Scope R_scope.
Variable X : nat -> nat -> R.
Variable d : svd_factors.
Hypothesis Hsvd : is_svd X d.
#[local] Existing Instance rsum_proper.

(** The squared error of the rank-k reconstruction is the sum of the squares
    of the singular values that were dropped. *)
Lemma squared_error_tail k :
  squared_error X d k = rsum (n_sing d) (fun c => dropped k c * Rsqr (svd_S d c)).
Proof.
  unfold squared_error.
  set (g := fun i j c => dropped k c * (svd_U d i c * svd_S d c * svd_V d j c)).
  transitivity (rsum (n_rows d) (fun i => rsum (n_cols d) (fun j =>
     rsum (n_sing d) (fun c => rsum (n_sing d) (fun c' => g i j c * g i j c'))))).
  { apply rsum_ext; intros i Hi. apply rsum_ext; intros j Hj.
    rewrite (svd_product X d Hsvd i j Hi Hj). unfold reconstruct at 1 2.
    rewrite Nat.min_id, rsum_min_dropped. unfold Rsqr. rewrite rsum_mul. reflexivity. }
  setoid_rewrite (rsum_swap (n_cols d) (n_sing d)).
  rewrite (rsum_swap (n_rows d) (n_sing d)).
  apply rsum_ext; intros c Hc.
  setoid_rewrite (rsum_swap (n_cols d) (n_sing d)).
  rewrite (rsum_swap (n_rows d) (n_sing d)).
  transitivity (rsum (n_sing d) (fun c' =>
     delta c c' * (dropped k c * dropped k c' * svd_S d c * svd_S d c'))).
  2:{ rewrite rsum_delta by exact Hc. unfold Rsqr, dropped. destruct (k <=? c)%nat; lra. }
  apply rsum_ext; intros c' Hc'.
  transitivity (dropped k c * dropped k c' * svd_S d c * svd_S d c' *
    (rsum (n_rows d) (fun i => svd_U d i c * svd_U d i c') *
     rsum (n_cols d) (fun j => svd_V d j c * svd_V d j c'))).
  { rewrite rsum_mul, <- rsum_scale. apply rsum_ext; intros i Hi.
    rewrite <- rsum_scale. apply rsum_ext; intros j Hj. unfold g. ring. }
  rewrite (svd_U_orthonormal X d Hsvd), (svd_V_orthonormal X d Hsvd) by assumption.
  unfold delta. destruct (c =? c')%nat; ring.
Qed.

Lemma squared_error_antitone k1 k2 :
  (k1 <= k2)%nat -> squared_error X d k2 <= squared_error X d k1.
Proof.
  intros Hk. rewrite !squared_error_tail. apply rsum_le; intros c _.
  pose proof (Rle_0_sqr (svd_S d c)).
  unfold dropped. destruct (Nat.leb_spec k2 c), (Nat.leb_spec k1 c); try lra; lia.
Qed.

End Truncation.

Lemma diag_factors_is_svd : is_svd diag_matrix diag_factors.
Proof.
  split; simpl.
  - intros [|[|i]] [|[|j]] Hi Hj; try lia;
      unfold reconstruct; simpl; unfold delta; simpl; lra.
  - intros [|[|a]] [|[|b]] Ha Hb; try lia; unfold delta; simpl; lra.
  - intros [|[|a]] [|[|b]] Ha Hb; try lia; unfold delta; simpl; lra.
  - intros [|[|c]] Hc; try lia; lra.
  - intros [|[|a]] [|[|b]] Hab Hb; try lia; lra.
Qed.

(** C2: for every data matrix with a singular value decomposition and all
    ranks k1 <= k2, the rank-k2 reconstruction U_k S_k V_k^T is at least as
    close to X (in Frobenius norm) as the rank-k1 reconstruction. *)
Theorem reconstruction_error_monotone (X : nat -> nat -> R) (d : svd_factors) (k1 k2 : nat) :
  is_svd X d -> k1 <= k2 ->
  (reconstruction_error X d k2 <= reconstruction_error X d k1)%R.
Proof.
  intros Hsvd Hk. unfold reconstruction_error. apply sqrt_le_1_alt.
  now apply squared_error_antitone.
Qed.

Lemma reconstruction_error_monotone_witness :
  (reconstruction_error diag_matrix diag_factors 2
   <= reconstruction_error diag_matrix diag_factors 1)%R.
Proof.
  apply (reconstruction_error_monotone diag_matrix diag_factors 1 2).
  - exact diag_factors_is_svd.
  - lia.
Defined.

(** ** Responsibilities of a Gaussian mixture *)

Section MixtureFacts.
Local Open Scope R_scope.

Lemma normal_pdf_pos x g : 0 < det2 (cov g) -> 0 < normal_pdf x g.
Proof.
  intros Hdet. unfold normal_pdf.
  apply Rmult_lt_0_compat; [|apply exp_pos].
  apply Rinv_0_lt_compat, sqrt_lt_R0.
  apply Rmult_lt_0_compat; [|exact Hdet].
  apply pow_lt. pose proof PI_RGT_0. lra.
Qed.

Lemma Rlist_sum_div (A : Type) (f : A -> R) (D : R) (l : list A) :
  Rlist_sum (map (fun a => f a / D) l) = Rlist_sum (map f l) / D.
Proof.
  induction l as [|a l IH]; simpl; [lra|]. rewrite IH. lra.
Qed.

Lemma weighted_sum_pos (A : Type) (wt f : A -> R) (l : list A) :
  Forall (fun a => 0 <= wt a /\ 0 < f a) l ->
  0 <= Rlist_sum (map (fun a => wt a * f a) l) /\
  (0 < Rlist_sum (map wt l) -> 0 < Rlist_sum (map (fun a => wt a * f a) l)).
Proof.
  induction 1 as [|a l [Hw Hf] _ [IH0 IH1]]; simpl; [lra|].
  assert (0 <= wt a * f a) by (apply Rmult_le_pos; lra).
  split; [lra|]. intros Hs.
  destruct (Rle_lt_or_eq_dec _ _ Hw) as [Hpos|Heq].
  - assert (0 < wt a * f a) by (apply Rmult_lt_0_compat; lra). lra.
  - rewrite <- Heq in *. rewrite Rmult_0_l, Rplus_0_l. apply IH1. lra.
Qed.

Lemma mixture_density_pos gmm x : fitted_mixture gmm -> 0 < mixture_density gmm x.
Proof.
  intros [Hall Hsum]. unfold mixture_density.
  apply (weighted_sum_pos gaussian mix (normal_pdf x)).
  - eapply Forall_impl; [exact Hall|]. intros g [? ?]. split; [assumption|].
    now apply normal_pdf_pos.
  - rewrite Hsum. lra.
Qed.

Lemma responsibilities_sum gmm x :
  fitted_mixture gmm -> Rlist_sum (map (responsibility gmm x) gmm) = 1.
Proof.
  intros Hfit. pose proof (mixture_density_pos gmm x Hfit) as HD.
  unfold responsibility.
  rewrite (Rlist_sum_div gaussian (fun g => mix g * normal_pdf x g)).
  fold (mixture_density gmm x). field. lra.
Qed.

Lemma two_blobs_fitted : fitted_mixture two_blobs.
Proof.
  split.
  - repeat constructor; simpl; lra.
  - simpl. lra.
Qed.

End MixtureFacts.

(** C1: for every data point, the posterior membership probabilities of a
    fitted Gaussian mixture (the responsibilities gamma_nk of the notebook's
    E-step) sum to 1 across the mixture components: every row of the
    matrix of posteriors sums to 1. *)
Theorem posterior_rows_sum_to_one (gmm : list gaussian) (X : list (R * R)) (row : list R) :
  fitted_mixture gmm -> row ∈ posterior gmm X -> Rlist_sum row = 1%R.
Proof.
  intros Hfit Hrow. unfold posterior in Hrow.
  apply list_elem_of_fmap in Hrow as (x & -> & _).
  now apply responsibilities_sum.
Qed.

Lemma posterior_rows_sum_to_one_witness :
  Rlist_sum (map (responsibility two_blobs (1, 2)%R) two_blobs) = 1%R.
Proof.
  apply (posterior_rows_sum_to_one two_blobs [(1, 2)%R]).
  - exact two_blobs_fitted.
  - simpl. left.
Defined.

(** ** The E-step: nearest centers *)

Section AssignmentFacts.
Local Open Scope Q_scope.

Lemma argmin_from_spec (pre ds : list Q) (best : nat) (bestd : Q) :
  pre !! best = Some bestd ->
  (forall d, d ∈ pre -> bestd <= d) ->
  exists m, (pre ++ ds) !! argmin_from best bestd (length pre) ds = Some m /\
            forall d, d ∈ pre ++ ds -> m <= d.
Proof.
  revert pre best bestd.
  induction ds as [|d ds IH]; intros pre best bestd Hbest Hmin; simpl.
  - exists bestd. rewrite app_nil_r. auto.
  - replace (pre ++ d :: ds) with ((pre ++ [d]) ++ ds) by (now rewrite <- app_assoc).
    replace (S (length pre)) with (length (pre ++ [d]))
      by (rewrite length_app; simpl; lia).
    destruct (Qle_bool bestd d) eqn:Hle.
    + apply Qle_bool_iff in Hle. apply IH.
      * apply lookup_app_l_Some. exact Hbest.
      * intros x [Hx|Hx]%elem_of_app; [auto|].
        apply list_elem_of_singleton in Hx as ->. exact Hle.
    + assert (d < bestd) as Hlt.
      { apply Qnot_le_lt. intros Hc. apply Qle_bool_iff in Hc. congruence. }
      apply IH.
      * rewrite lookup_app_r by lia. now rewrite Nat.sub_diag.
      * intros x [Hx|Hx]%elem_of_app.
        -- apply Qlt_le_weak. eapply Qlt_le_trans; [exact Hlt|auto].
        -- apply list_elem_of_singleton in Hx as ->. apply Qle_refl.
Qed.

Lemma argmin_spec (ds : list Q) (r : nat) :
  argmin ds = Some r ->
  exists m, ds !! r = Some m /\ forall d, d ∈ ds -> m <= d.
Proof.
  destruct ds as [|d ds]; simpl; [discriminate|].
  intros [= <-].
  apply (argmin_from_spec [d] ds 0 d); [reflexivity|].
  intros x Hx. apply list_elem_of_singleton in Hx as ->. apply Qle_refl.
Qed.

Lemma argmin_nearest (cs : list qpoint) (x : qpoint) (l : nat) :
  argmin (map (sq_dist x) cs) = Some l -> nearest_center cs x l.
Proof.
  intros Hl. destruct (argmin_spec _ _ Hl) as (m & Hm & Hmin).
  assert (Hm' : (sq_dist x <$> cs) !! l = Some m) by exact Hm.
  rewrite list_lookup_fmap in Hm'.
  destruct (cs !! l) as [c|] eqn:Hc; [|discriminate].
  injection Hm' as <-.
  exists c. split; [exact Hc|].
  intros c' Hc'. apply Hmin.
  change (sq_dist x c' ∈ sq_dist x <$> cs). now apply list_elem_of_fmap_2.
Qed.

End AssignmentFacts.

(** [pairwise_distances_argmin] labels every row with a nearest center. *)
Lemma pairwise_distances_argmin_nearest (X Y : array) (labels : list nat) :
  pairwise_distances_argmin X Y = Ok labels -> assigns_nearest X Y labels.
Proof.
  unfold pairwise_distances_argmin, assigns_nearest.
  destruct (finite_rows X) as [xs|]; [|discriminate].
  destruct (finite_rows Y) as [ys|]; [|discriminate].
  destruct xs as [|x xs]; [discriminate|].
  destruct (mapM _ (x :: xs)) as [ls|] eqn:Hls; [|discriminate].
  intros [= <-]. exists (x :: xs), ys. split; [reflexivity|]. split; [reflexivity|].
  apply mapM_Some in Hls.
  eapply Forall2_impl; [exact Hls|].
  intros p l Hl. now apply argmin_nearest.
Qed.

Lemma finite_rows_length (a : array) (xs : list qpoint) :
  finite_rows a = Some xs -> length xs = length a.
Proof. intros Hxs. apply mapM_Some in Hxs. symmetry. eapply Forall2_length, Hxs. Qed.

Lemma assigns_nearest_length (X Y : array) (labels : list nat) :
  assigns_nearest X Y labels -> length labels = length X.
Proof.
  intros (xs & cs & Hxs & _ & Hall).
  rewrite <- (finite_rows_length _ _ Hxs). symmetry. eapply Forall2_length, Hall.
Qed.

(** ** The M-step: means of the assigned points *)

Lemma mask_selects {A} (X : list A) (labels : list nat) (i : nat) :
  map fst (filter (fun xb => snd xb = true) (zip X (eq_mask labels i)))
  = assigned X labels i.
Proof.
  unfold assigned, eq_mask. revert labels.
  induction X as [|x X IH]; intros [|l labels]; simpl; try reflexivity.
  rewrite !filter_cons. simpl.
  destruct (Nat.eqb_spec l i) as [->|Hne].
  - rewrite !decide_True by reflexivity. simpl. now rewrite IH.
  - rewrite decide_False by discriminate. rewrite decide_False by exact Hne. apply IH.
Qed.

Lemma bool_index_assigned {A} (X : list A) (labels : list nat) (i : nat) :
  length labels = length X ->
  bool_index X (eq_mask labels i) = Ok (assigned X labels i).
Proof.
  intros Hlen. unfold bool_index.
  replace (length (eq_mask labels i)) with (length X)
    by (unfold eq_mask; now rewrite length_map).
  now rewrite Nat.eqb_refl, mask_selects.
Qed.

Lemma bool_index_mismatch {A} (X : list A) (labels : list nat) (i : nat) :
  length labels <> length X ->
  bool_index X (eq_mask labels i) = Raise (IndexError "boolean index did not match").
Proof.
  intros Hlen. unfold bool_index.
  replace (length (eq_mask labels i)) with (length labels)
    by (unfold eq_mask; now rewrite length_map).
  destruct (Nat.eqb_spec (length labels) (length X)); [contradiction|reflexivity].
Qed.

(** The M-step computes, for each of the five indices, [mean(0)] of the
    rows carrying that label; it raises only on a label vector of the wrong
    length. *)
Lemma m_step_ok (X : array) (labels : list nat) :
  length labels = length X ->
  m_step X labels = Ok (map (fun i => mean0 (assigned X labels i)) (seq 0 5)).
Proof.
  intros Hlen. unfold m_step. simpl.
  rewrite !bool_index_assigned by exact Hlen. reflexivity.
Qed.

Lemma m_step_mismatch (X : array) (labels : list nat) :
  length labels <> length X ->
  m_step X labels = Raise (IndexError "boolean index did not match").
Proof.
  intros Hlen. unfold m_step. simpl.
  rewrite !bool_index_mismatch by exact Hlen. reflexivity.
Qed.

Lemma finite_rows_to_point (a : array) (pts : list qpoint) :
  finite_rows a = Some pts -> a = map to_point pts.
Proof.
  intros Hpts. apply mapM_Some in Hpts.
  induction Hpts as [|[[x|] [y|]] [x' y'] a pts Hp _ IH]; simpl in *;
    try discriminate; [reflexivity|].
  injection Hp as <- <-. now rewrite IH.
Qed.

Lemma finite_rows_of_points (pts : list qpoint) :
  finite_rows (map to_point pts) = Some pts.
Proof.
  apply mapM_Some. induction pts as [|[x y] pts IH]; constructor; auto.
Qed.

Lemma assigned_map {A B} (f : A -> B) (X : list A) (labels : list nat) (i : nat) :
  assigned (map f X) labels i = map f (assigned X labels i).
Proof.
  unfold assigned. revert labels.
  induction X as [|x X IH]; intros [|l labels]; simpl; try reflexivity.
  rewrite !filter_cons. simpl. destruct (decide (l = i)); simpl; now rewrite IH.
Qed.

Lemma assigned_finite (X : array) (xs : list qpoint) (labels : list nat) (i : nat) :
  finite_rows X = Some xs ->
  finite_rows (assigned X labels i) = Some (assigned xs labels i).
Proof.
  intros ->%finite_rows_to_point. rewrite assigned_map. apply finite_rows_of_points.
Qed.

(** A row is in the selection exactly when it sits at a position labelled [i]. *)
Lemma elem_of_assigned {A} (X : list A) (labels : list nat) (i : nat) (x : A) :
  x ∈ assigned X labels i <-> exists p, X !! p = Some x /\ labels !! p = Some i.
Proof.
  unfold assigned. rewrite list_elem_of_In, in_map_iff. split.
  - intros ([x' l] & <- & Hin). apply list_elem_of_In, list_elem_of_filter in Hin as [Hl Hin].
    simpl in Hl. subst l. apply list_elem_of_lookup in Hin as [p Hp].
    apply lookup_zip_with_Some in Hp as (x0 & l0 & [= <- <-] & Hx & Hl).
    exists p. auto.
  - intros (p & Hx & Hl). exists (x, i). split; [reflexivity|].
    apply list_elem_of_In, list_elem_of_filter. split; [reflexivity|].
    apply list_elem_of_lookup. exists p.
    apply lookup_zip_with_Some. exists x, i. auto.
Qed.

Lemma assigned_nonempty {A} (X : list A) (labels : list nat) (i : nat) :
  assigned X labels i <> [] <-> exists p x, X !! p = Some x /\ labels !! p = Some i.
Proof.
  split.
  - destruct (assigned X labels i) as [|x sel] eqn:Hsel; [congruence|]. intros _.
    assert (Hx : x ∈ assigned X labels i) by (rewrite Hsel; left).
    apply elem_of_assigned in Hx as (p & ? & ?). eauto.
  - intros (p & x & Hx & Hl) Hnil.
    assert (Hin : x ∈ assigned X labels i) by (apply elem_of_assigned; eauto).
    rewrite Hnil in Hin. inversion Hin.
Qed.

Lemma fsum_finite (qs : list Q) : fsum (map Fin qs) = Fin (Qsum qs).
Proof.
  induction qs as [|q qs IH]; [reflexivity|].
  change (fsum (map Fin (q :: qs))) with (fadd (Fin q) (fsum (map Fin qs))).
  now rewrite IH.
Qed.

Lemma of_nat_nonzero (n : nat) : n <> 0 -> Qeq_bool (inject_Z (Z.of_nat n)) 0 = false.
Proof.
  intros Hn. destruct (Qeq_bool _ _) eqn:Heq; [|reflexivity].
  apply Qeq_bool_iff in Heq. unfold Qeq in Heq. simpl in Heq. lia.
Qed.

Lemma fmean_finite (qs : list Q) :
  qs <> [] -> fmean (map Fin qs) = Fin (Qsum qs / inject_Z (Z.of_nat (length qs))).
Proof.
  intros Hne. unfold fmean. destruct qs as [|q qs]; [congruence|].
  change (Fin q :: map Fin qs) with (map Fin (q :: qs)).
  rewrite fsum_finite, length_map. unfold fdiv, of_nat.
  now rewrite of_nat_nonzero by (simpl; lia).
Qed.

(** [mean(0)] of a non-empty finite selection is its arithmetic mean. *)
Lemma mean0_arithmetic_mean (sel : array) (pts : list qpoint) :
  finite_rows sel = Some pts -> pts <> [] ->
  mean0 sel = to_point (arithmetic_mean pts).
Proof.
  intros ->%finite_rows_to_point Hne.
  assert (H0 : col0 (map to_point pts) = map Fin (map fst pts))
    by (unfold col0; now rewrite !map_map).
  assert (H1 : col1 (map to_point pts) = map Fin (map snd pts))
    by (unfold col1; now rewrite !map_map).
  unfold mean0. rewrite H0, H1. unfold arithmetic_mean, to_point. simpl fst. simpl snd.
  rewrite !fmean_finite, !length_map; [reflexivity| |];
    destruct pts; simpl; congruence.
Qed.

(** [mean(0)] of an empty selection is not a number: numpy does not raise. *)
Lemma mean0_empty : mean0 [] = (NaN, NaN).
Proof. reflexivity. Qed.

Lemma lookup_m_step (X : array) (labels : list nat) (centers : array) (i : nat) :
  m_step X labels = Ok centers -> i < 5 ->
  centers !! i = Some (mean0 (assigned X labels i)).
Proof.
  intros Hm Hi.
  destruct (decide (length labels = length X)) as [Hlen|Hlen].
  - rewrite m_step_ok in Hm by exact Hlen. injection Hm as <-.
    do 5 (destruct i as [|i]; [reflexivity|]). lia.
  - rewrite m_step_mismatch in Hm by exact Hlen. discriminate.
Qed.

Lemma length_m_step (X : array) (labels : list nat) (centers : array) :
  m_step X labels = Ok centers -> length centers = 5 /\ length labels = length X.
Proof.
  intros Hm.
  destruct (decide (length labels = length X)) as [Hlen|Hlen].
  - rewrite m_step_ok in Hm by exact Hlen. injection Hm as <-. auto.
  - rewrite m_step_mismatch in Hm by exact Hlen. discriminate.
Qed.

(** The E-step returns on finite, non-empty data and centers. *)
Lemma pairwise_distances_argmin_returns (X Y : array) (xs ys : list qpoint) :
  finite_rows X = Some xs -> finite_rows Y = Some ys -> xs <> [] -> ys <> [] ->
  exists labels, pairwise_distances_argmin X Y = Ok labels /\ assigns_nearest X Y labels.
Proof.
  intros HX HY Hxs Hys.
  assert (Hall : is_Some (mapM (fun x => argmin (map (sq_dist x) ys)) xs)).
  { apply mapM_is_Some, Forall_forall. intros x _. simpl.
    destruct ys as [|c cs]; [congruence|]. simpl. eauto. }
  destruct Hall as [labels Hlabels].
  exists labels.
  assert (Hrun : pairwise_distances_argmin X Y = Ok labels).
  { unfold pairwise_distances_argmin. rewrite HX, HY.
    destruct xs; [congruence|]. now rewrite Hlabels. }
  split; [exact Hrun|]. now apply pairwise_distances_argmin_nearest.
Qed.

(** ** Properties that every piece of cell code inherits from its parts *)

Section Inherited.
Context `{Library}.
Context (P : forall A, M A -> Prop) `{!Compositional P}.

Lemma comp_mapM {A B} (f : A -> M B) (l : list A) :
  (forall a, P B (f a)) -> P (list B) (mapM f l).
Proof.
  intros Hf. induction l as [|a l IH]; simpl.
  - apply comp_ret.
  - apply comp_bind; [apply Hf|]. intros b.
    apply comp_bind; [apply IH|]. intros k. apply comp_ret.
Qed.

Ltac comp_step :=
  first
    [ apply comp_ret | apply comp_raise | apply comp_lift | apply comp_load
    | apply comp_assign | apply comp_deref | apply comp_libcall
    | apply comp_get_canvas | apply comp_draw | apply comp_display
    | apply comp_check_random_state | apply comp_KMeans
    | apply comp_GaussianMixture | apply comp_fit | apply comp_fit_predict
    | apply comp_bind; [|intros ?]
    | apply comp_mapM; intros ?
    | match goal with
      | |- P _ (match ?x with _ => _ end) => destruct x
      | |- P _ (let '(_, _) := ?x in _) => destruct x
      end ].

Ltac comp := repeat comp_step.

Lemma comp_use x : P _ (use x).
Proof. unfold use. comp. Qed.

Lemma comp_import x q : P _ (import x q).
Proof. unfold import. comp. Qed.

Lemma comp_def x : P _ (def x).
Proof. unfold def. comp. Qed.

Lemma comp_get_array x : P _ (get_array x).
Proof. unfold get_array. comp. Qed.

Lemma comp_get_ints x : P _ (get_ints x).
Proof. unfold get_ints. comp. Qed.

Lemma comp_get_floats x : P _ (get_floats x).
Proof. unfold get_floats. comp. Qed.

Lemma comp_get_strs x : P _ (get_strs x).
Proof. unfold get_strs. comp. Qed.

Lemma comp_get_generator x : P _ (get_generator x).
Proof. unfold get_generator. comp. Qed.

Lemma comp_get_ref x : P _ (get_ref x).
Proof. unfold get_ref. comp. Qed.

Lemma comp_plot name c : P _ (plot name c).
Proof. unfold plot. comp. Qed.

Lemma comp_plt_show : P _ plt_show.
Proof. unfold plt_show. comp. Qed.

Lemma comp_predict l X : P _ (predict l X).
Proof. unfold predict. comp. Qed.

Lemma comp_predict_proba l X : P _ (predict_proba l X).
Proof. unfold predict_proba. comp. Qed.

Lemma comp_fitted_params l : P _ (fitted_params l).
Proof. unfold fitted_params. comp. Qed.

Ltac comp' :=
  repeat first
    [ apply comp_use | apply comp_import | apply comp_def | apply comp_get_array
    | apply comp_get_ints | apply comp_get_floats | apply comp_get_strs
    | apply comp_get_generator | apply comp_get_ref | apply comp_plot
    | apply comp_plt_show | apply comp_predict | apply comp_predict_proba
    | apply comp_fitted_params | comp_step ].

Lemma comp_plot_kmeans_step X centers t : P _ (plot_kmeans_step X centers t).
Proof. unfold plot_kmeans_step. comp'. Qed.

Lemma comp_call_plot_kmeans_step t : P _ (call_plot_kmeans_step t).
Proof. unfold call_plot_kmeans_step. comp'. Qed.

Lemma comp_recompute_centers : P _ recompute_centers.
Proof. unfold recompute_centers, cluster_mean, nd_mean0, np_array. comp'. Qed.

Lemma comp_e_step t : P _ (e_step t).
Proof. unfold e_step. comp'. Qed.

Lemma comp_m_step_shown t : P _ (m_step_shown t).
Proof.
  unfold m_step_shown.
  repeat first [ apply comp_recompute_centers | apply comp_call_plot_kmeans_step | comp' ].
Qed.

Lemma comp_scatter_labelled s t : P _ (scatter_labelled s t).
Proof. unfold scatter_labelled. comp'. Qed.

Lemma comp_kmeans_labels k : P _ (kmeans_labels k).
Proof. unfold kmeans_labels. comp'. Qed.

Lemma comp_fit_then_predict x : P _ (fit_then_predict x).
Proof. unfold fit_then_predict. comp'. Qed.

Lemma comp_draw_ellipse pos cov ax kw : P _ (draw_ellipse pos cov ax kw).
Proof.
  unfold draw_ellipse, plt_gca, np_linalg_svd, np_arctan2, np_degrees, np_sqrt, new_ellipse.
  comp'.
Qed.

Lemma comp_plot_gmm g X label ax : P _ (plot_gmm g X label ax).
Proof.
  unfold plot_gmm, plt_gca, nd_max.
  repeat first [ apply comp_draw_ellipse | comp' ].
Qed.

Lemma comp_cell_kmeans_steps : P _ cell_kmeans_steps.
Proof.
  unfold cell_kmeans_steps, make_blobs_n, RandomState, permutation.
  repeat first [ apply comp_call_plot_kmeans_step | apply comp_e_step
               | apply comp_m_step_shown | comp' ].
Qed.

Lemma comp_cell_kmeans3 : P _ cell_kmeans3.
Proof.
  unfold cell_kmeans3.
  repeat first [ apply comp_kmeans_labels | apply comp_scatter_labelled | comp' ].
Qed.

Lemma comp_cell_moons : P _ cell_moons.
Proof.
  unfold cell_moons, make_moons.
  repeat first [ apply comp_kmeans_labels | apply comp_scatter_labelled | comp' ].
Qed.

Lemma comp_cell_sizes : P _ cell_sizes.
Proof.
  unfold cell_sizes, make_blobs_at, scatter_original.
  repeat first [ apply comp_kmeans_labels | apply comp_scatter_labelled | comp' ].
Qed.

Lemma comp_cell_gmm_data : P _ cell_gmm_data.
Proof. unfold cell_gmm_data, make_blobs_n. comp'. Qed.

Lemma comp_cell_kmeans4 : P _ cell_kmeans4.
Proof.
  unfold cell_kmeans4.
  repeat first [ apply comp_fit_then_predict | apply comp_scatter_labelled | comp' ].
Qed.

Lemma comp_cell_gmm_fit : P _ cell_gmm_fit.
Proof.
  unfold cell_gmm_fit.
  repeat first [ apply comp_fit_then_predict | apply comp_scatter_labelled | comp' ].
Qed.

Lemma comp_cell_gmm_proba : P _ cell_gmm_proba.
Proof. unfold cell_gmm_proba, nd_max1. comp'. Qed.

Lemma comp_cell_gmm_ellipses : P _ cell_gmm_ellipses.
Proof.
  unfold cell_gmm_ellipses.
  repeat first [ apply comp_plot_gmm | comp' ].
Qed.

(** Every cell of the notebook has the property. *)
Lemma comp_cells : Forall (P unit) cells.
Proof.
  unfold cells.
  repeat constructor;
    auto using comp_cell_kmeans_steps, comp_cell_kmeans3, comp_cell_moons,
      comp_cell_sizes, comp_cell_gmm_data, comp_cell_kmeans4, comp_cell_gmm_fit,
      comp_cell_gmm_proba, comp_cell_gmm_ellipses.
Qed.

(** And so has every sequence of cells, in any order. *)
Lemma comp_run (cs : list (M unit)) : Forall (fun c => c ∈ cells) cs -> P unit (run cs).
Proof.
  induction 1 as [|c cs Hc _ IH]; simpl.
  - apply comp_ret.
  - apply comp_bind; [|intros _; exact IH].
    pose proof comp_cells as Hall. rewrite Forall_forall in Hall. now apply Hall.
Qed.

End Inherited.

(** ** Exceptions raised by library calls *)

Section Propagation.
Context `{Library}.

Lemma propagates_silent {A} (m : M A) :
  (forall w, log (snd (m w)) = log w) -> propagates A m.
Proof.
  intros Hlog w. exists []. rewrite app_nil_r. split; [apply Hlog|].
  intros c e Hin. inversion Hin.
Qed.

Lemma propagates_bind {A B} (m : M A) (f : A -> M B) :
  propagates A m -> (forall a, propagates B (f a)) -> propagates B (m ≫= f).
Proof.
  intros Hm Hf w. destruct (Hm w) as (l1 & Hl1 & Hr1).
  unfold mbind, M_bind. destruct (m w) as [[a|e] w1] eqn:Hmw; simpl in *.
  - destruct (Hf a w1) as (l2 & Hl2 & Hr2).
    exists (l1 ++ l2). rewrite Hl2, Hl1, app_assoc. split; [reflexivity|].
    intros c e [Hin|Hin]%elem_of_app; [|eauto].
    specialize (Hr1 c e Hin). discriminate.
  - exists l1. split; [exact Hl1|].
    intros c e' Hin. specialize (Hr1 c e' Hin). congruence.
Qed.

Lemma propagates_libcall {A} name (r : result A) : propagates A (libcall name r).
Proof.
  intros w. exists [(name, outcome r)]. split; [reflexivity|].
  intros c e Hin. apply list_elem_of_singleton in Hin. injection Hin as _ Hout.
  destruct r; simpl in *; congruence.
Qed.

Lemma propagates_check_random_state rs : propagates _ (check_random_state rs).
Proof. apply propagates_silent. intros w. now destruct rs. Qed.

Lemma propagates_alloc o : propagates _ (alloc o).
Proof. now apply propagates_silent. Qed.

Lemma propagates_store l o : propagates _ (store l o).
Proof. now apply propagates_silent. Qed.

Lemma propagates_deref l : propagates _ (deref l).
Proof. apply propagates_silent. intros w. unfold deref. now destruct (heap w !! l). Qed.

Lemma propagates_ret {A} (a : A) : propagates A (mret a).
Proof. now apply propagates_silent. Qed.

#[export] Instance propagates_compositional : Compositional propagates.
Proof.
  split.
  - intros. apply propagates_ret.
  - intros. now apply propagates_bind.
  - intros. now apply propagates_silent.
  - intros. now apply propagates_silent.
  - intros x. apply propagates_silent. intros w. unfold load. now destruct (ns w !! x).
  - intros. now apply propagates_silent.
  - apply propagates_deref.
  - intros. apply propagates_libcall.
  - now apply propagates_silent.
  - intros. now apply propagates_silent.
  - now apply propagates_silent.
  - intros. apply propagates_check_random_state.
  - intros. apply propagates_bind; [apply propagates_libcall|]. intros _. apply propagates_alloc.
  - intros. apply propagates_bind; [apply propagates_libcall|]. intros _. apply propagates_alloc.
  - intros l X. unfold fit.
    apply propagates_bind; [apply propagates_deref|]. intros [k rs f|k ct rs f];
      (apply propagates_bind; [apply propagates_check_random_state|]; intros g;
       apply propagates_bind; [apply propagates_libcall|]; intros r;
       apply propagates_bind; [apply propagates_store|]; intros _; apply propagates_ret).
  - intros l X. unfold fit_predict.
    apply propagates_bind; [apply propagates_deref|]. intros [k rs f|k ct rs f].
    + apply propagates_bind; [apply propagates_check_random_state|]; intros g.
      apply propagates_bind; [apply propagates_libcall|]; intros r.
      apply propagates_bind; [apply propagates_store|]; intros _. apply propagates_ret.
    + now apply propagates_silent.
Qed.

(** A handler, had a cell one, would break the property. *)
Lemma try_except_swallows e :
  ~ propagates _ (try_except (libcall "f" (Raise e)) (fun _ => mret tt)).
Proof.
  intros Hp. destruct (Hp (empty_world 0)) as (l & Hl & Hr).
  simpl in Hl. subst l. specialize (Hr "f" e ltac:(left)). discriminate.
Qed.

End Propagation.

(** When [plt.show()] raises in the data cell, the cell raises the same
    exception, and the failed call is the last one logged. *)
Example show_failure_reaches_the_cell :
  let w := @cell_gmm_data (grid_library (Some (LibraryError 7))) (empty_world 0) in
  fst w = Raise (LibraryError 7) /\
  last (log (snd w)) = Some ("plt.show", Some (LibraryError 7)).
Proof. vm_compute. split; reflexivity. Qed.

(** C6: no cell handles exceptions: whenever a call into a third-party
    library raises while a cell runs, the cell ends with that very
    exception; it is not caught, replaced or swallowed. *)
Theorem library_exceptions_propagate `{Library} : Forall (propagates unit) cells.
Proof. apply comp_cells. apply propagates_compositional. Qed.

(** ** External effects *)

Section Effects.
Context `{Library}.








(** Saving a figure, which pyplot offers, is an effect of another kind. *)
Lemma savefig_writes path : ~ display_only _ (plt_savefig path).
Proof.
  intros Hd. destruct (Hd (empty_world 0)) as (evs & Hevs & Hall).
  simpl in Hevs. subst evs.
  apply Forall_cons in Hall as [[figure Hfig] _]. discriminate.
Qed.

End Effects.


(** ** Randomness *)

Section Seeds.
Context `{Library}.

Lemma seeded_pure {A} (m : M A) :
  (forall w, heap (snd (m w)) = heap w) ->
  (forall w g, m (set_global_rng g w) = (fst (m w), set_global_rng g (snd (m w)))) ->
  seeded A m.
Proof.
  intros Hheap Hrng w Hw. split; [|apply Hrng].
  intros l o. rewrite Hheap. apply Hw.
Qed.

Lemma seeded_bind {A B} (m : M A) (f : A -> M B) :
  seeded A m -> (forall a, seeded B (f a)) -> seeded B (m ≫= f).
Proof.
  intros Hm Hf w Hw. destruct (Hm w Hw) as [Hw1 Hg1].
  unfold mbind, M_bind.
  destruct (m w) as [[a|e] w1] eqn:Hmw; simpl in *.
  - destruct (Hf a w1 Hw1) as [Hw2 Hg2]. split; [exact Hw2|].
    intros g. rewrite Hg1. apply Hg2.
  - split; [exact Hw1|]. intros g. now rewrite Hg1.
Qed.

Lemma heap_seeded_insert w l o :
  heap_seeded w -> is_Some (estimator_seed o) -> heap_seeded (set_heap <[l:=o]> w).
Proof.
  intros Hw Ho l' o'. simpl. rewrite lookup_insert.
  case_decide; [intros [= <-]; exact Ho|apply Hw].
Qed.

Lemma seeded_constructor name o :
  is_Some (estimator_seed o) -> seeded _ (libcall name (Ok tt) ≫= fun _ => alloc o).
Proof.
  intros Ho w Hw. split; [|reflexivity].
  unfold mbind, M_bind, libcall, alloc. simpl.
  apply (heap_seeded_insert (add_log _ w)); [exact Hw|exact Ho].
Qed.

Lemma seeded_fit l X : seeded _ (fit l X).
Proof.
  intros w Hw. unfold fit, deref, mbind, M_bind. simpl.
  destruct (heap w !! l) as [o|] eqn:Hl; [|split; [exact Hw|reflexivity]].
  destruct (Hw l o Hl) as [seed Hseed].
  destruct o as [k rs f|k ct rs f]; simpl in Hseed; subst rs; simpl.
  - destruct (lib_kmeans_fit k (Seeded seed) X); simpl; (split; [|reflexivity]); [|exact Hw].
    apply (heap_seeded_insert (add_log _ w)); [exact Hw|now exists seed].
  - destruct (lib_gmm_fit k ct (Seeded seed) X); simpl; (split; [|reflexivity]); [|exact Hw].
    apply (heap_seeded_insert (add_log _ w)); [exact Hw|now exists seed].
Qed.

Lemma seeded_fit_predict l X : seeded _ (fit_predict l X).
Proof.
  intros w Hw. unfold fit_predict, deref, mbind, M_bind. simpl.
  destruct (heap w !! l) as [o|] eqn:Hl; [|split; [exact Hw|reflexivity]].
  destruct (Hw l o Hl) as [seed Hseed].
  destruct o as [k rs f|k ct rs f]; simpl in Hseed; subst rs; simpl.
  - destruct (lib_kmeans_fit k (Seeded seed) X); simpl; (split; [|reflexivity]); [|exact Hw].
    apply (heap_seeded_insert (add_log _ w)); [exact Hw|now exists seed].
  - split; [exact Hw|reflexivity].
Qed.

#[export] Instance seeded_compositional : Compositional seeded.
Proof.
  split.
  - intros. now apply seeded_pure.
  - intros. now apply seeded_bind.
  - intros. now apply seeded_pure.
  - intros. now apply seeded_pure.
  - intros x. apply seeded_pure; intros w; [|intros g]; unfold load; simpl;
      now destruct (ns w !! x).
  - intros. now apply seeded_pure.
  - intros l. apply seeded_pure; intros w; [|intros g]; unfold deref; simpl;
      now destruct (heap w !! l).
  - intros. now apply seeded_pure.
  - now apply seeded_pure.
  - intros. now apply seeded_pure.
  - now apply seeded_pure.
  - intros. now apply seeded_pure.
  - intros. apply seeded_constructor. now eexists.
  - intros. apply seeded_constructor. now eexists.
  - apply seeded_fit.
  - apply seeded_fit_predict.
Qed.

(** A call without [random_state] does consult the global generator. *)
Lemma unseeded_reads_global : ~ seeded _ (check_random_state None).
Proof.
  intros Hs. destruct (Hs (empty_world 0)) as [_ Hg]; [intros l o Hl; inversion Hl|].
  specialize (Hg 1%Z). discriminate.
Qed.

End Seeds.

(** C8: every source of randomness is seeded with a constant: two
    executions of the same sequence of cells that start from sessions
    differing only in the state of the global random generator end with the
    same outcome, the same bindings (datasets, labels, centers), the same
    estimator objects (centers, mixture parameters) and the same figures. *)
Theorem seeded_runs_agree `{Library} (cs : list (M unit)) (w : world) (g : Z) :
  Forall (fun c => c ∈ cells) cs -> heap_seeded w ->
  fst (run cs (set_global_rng g w)) = fst (run cs w) /\
  ns (snd (run cs (set_global_rng g w))) = ns (snd (run cs w)) /\
  heap (snd (run cs (set_global_rng g w))) = heap (snd (run cs w)) /\
  effects (snd (run cs (set_global_rng g w))) = effects (snd (run cs w)).
Proof.
  intros Hcs Hw.
  pose proof (comp_run seeded cs Hcs w Hw) as [_ Hg].
  rewrite Hg. auto.
Qed.

Lemma seeded_runs_agree_witness :
  fst (@run_all (grid_library None) (set_global_rng 5 (empty_world 0)))
  = fst (@run_all (grid_library None) (empty_world 0)).
Proof.
  refine (proj1 (@seeded_runs_agree (grid_library None) cells (empty_world 0) 5 _ _)).
  - apply Forall_forall. auto.
  - intros l o Hl. inversion Hl.
Defined.

(** ** What a run that returns normally went through *)

Section Returns.
Context `{Library}.

Lemma bind_ok {A B} (m : M A) (f : A -> M B) w b w' :
  (m ≫= f) w = (Ok b, w') -> exists a w1, m w = (Ok a, w1) /\ f a w1 = (Ok b, w').
Proof.
  unfold mbind, M_bind. destruct (m w) as [[a|e] w1]; [eauto|discriminate].
Qed.

Lemma ret_ok {A} (a b : A) w w' : (mret a : M A) w = (Ok b, w') -> b = a /\ w' = w.
Proof. intros [= -> ->]. auto. Qed.

Lemma load_ok x w v w' : load x w = (Ok v, w') -> ns w !! x = Some v /\ w' = w.
Proof. unfold load. destruct (ns w !! x); intros [= -> ->]; auto. Qed.

Lemma use_ok x w u w' : use x w = (Ok u, w') -> is_Some (ns w !! x) /\ w' = w.
Proof.
  unfold use. intros (v & w1 & [Hv ->]%load_ok & [_ ->]%ret_ok)%bind_ok. eauto.
Qed.

Lemma get_array_ok x w a w' :
  get_array x w = (Ok a, w') -> ns w !! x = Some (VArray a) /\ w' = w.
Proof.
  unfold get_array. intros (v & w1 & [Hv ->]%load_ok & Hk)%bind_ok.
  destruct v; try discriminate. apply ret_ok in Hk as [-> ->]. auto.
Qed.

Lemma get_ints_ok x w a w' :
  get_ints x w = (Ok a, w') -> ns w !! x = Some (VInts a) /\ w' = w.
Proof.
  unfold get_ints. intros (v & w1 & [Hv ->]%load_ok & Hk)%bind_ok.
  destruct v; try discriminate. apply ret_ok in Hk as [-> ->]. auto.
Qed.

Lemma assign_ok x v w u w' : assign x v w = (Ok u, w') -> w' = set_ns <[x:=v]> w.
Proof. now intros [= <-]. Qed.

Lemma libcall_ok {A} name (r : result A) w a w' :
  libcall name r w = (Ok a, w') -> r = Ok a /\ w' = add_log (name, None) w.
Proof. unfold libcall. intros [= -> <-]. auto. Qed.

Lemma lift_ok {A} (r : result A) w a w' : lift r w = (Ok a, w') -> r = Ok a /\ w' = w.
Proof. unfold lift. intros [= -> <-]. auto. Qed.

Lemma plot_ok name c w u w' :
  plot name c w = (Ok u, w') ->
  w' = set_canvas (canvas w ++ [c]) (add_log (name, None) w).
Proof.
  unfold plot. intros (cv & w1 & [= <- <-] & Hk)%bind_ok.
  apply bind_ok in Hk as ([] & w2 & [_ ->]%libcall_ok & Hd).
  now injection Hd as <-.
Qed.

Lemma plt_show_ok w u w' :
  plt_show w = (Ok u, w') ->
  w' = set_canvas [] (add_effect (Display (canvas w)) (add_log ("plt.show", None) w)).
Proof.
  unfold plt_show. intros (cv & w1 & [= <- <-] & Hk)%bind_ok.
  apply bind_ok in Hk as ([] & w2 & [_ ->]%libcall_ok & Hd).
  now injection Hd as <-.
Qed.

(** The function of the first cell: the labels it returns are those of
    [pairwise_distances_argmin], its only call that is not drawing. *)
Lemma plot_kmeans_step_ok X centers t w labels w' :
  plot_kmeans_step X centers t w = (Ok labels, w') ->
  pairwise_distances_argmin X centers = Ok labels /\
  ns w' = ns w /\
  log w' = log w ++ [("pairwise_distances_argmin", None); ("plt.scatter", None);
                     ("sns.scatterplot", None); ("plt.title", None); ("plt.show", None)].
Proof.
  unfold plot_kmeans_step.
  intros ([] & ? & [_ ->]%use_ok & Hk)%bind_ok.
  apply bind_ok in Hk as (labels' & ? & [Hl ->]%libcall_ok & Hk).
  apply bind_ok in Hk as ([] & ? & [_ ->]%use_ok & Hk).
  apply bind_ok in Hk as ([] & ? & ->%plot_ok & Hk).
  apply bind_ok in Hk as ([] & ? & [_ ->]%use_ok & Hk).
  apply bind_ok in Hk as ([] & ? & ->%plot_ok & Hk).
  apply bind_ok in Hk as ([] & ? & [_ ->]%use_ok & Hk).
  apply bind_ok in Hk as ([] & ? & ->%plot_ok & Hk).
  apply bind_ok in Hk as ([] & ? & [_ ->]%use_ok & Hk).
  apply bind_ok in Hk as ([] & ? & ->%plt_show_ok & Hk).
  apply ret_ok in Hk as [-> ->]. simpl.
  split; [exact Hl|]. split; [reflexivity|].
  now rewrite <- !app_assoc.
Qed.

Lemma call_plot_kmeans_step_ok t w labels w' :
  call_plot_kmeans_step t w = (Ok labels, w') ->
  exists X centers,
    ns w !! "X" = Some (VArray X) /\ ns w !! "centers" = Some (VArray centers) /\
    pairwise_distances_argmin X centers = Ok labels /\ ns w' = ns w.
Proof.
  unfold call_plot_kmeans_step.
  intros ([] & ? & [_ ->]%use_ok & Hk)%bind_ok.
  apply bind_ok in Hk as (X & ? & [HX ->]%get_array_ok & Hk).
  apply bind_ok in Hk as (centers & ? & [Hc ->]%get_array_ok & Hk).
  apply plot_kmeans_step_ok in Hk as (Hl & Hns & _).
  exists X, centers. auto.
Qed.

(** The E-step statement binds [labels] to the nearest-center labels of the
    current [X] and [centers]. *)
Lemma e_step_ok t w u w' :
  e_step t w = (Ok u, w') ->
  exists X centers labels,
    ns w !! "X" = Some (VArray X) /\ ns w !! "centers" = Some (VArray centers) /\
    pairwise_distances_argmin X centers = Ok labels /\
    ns w' = <["labels" := VInts labels]> (ns w).
Proof.
  unfold e_step.
  intros (labels & w1 & (X & centers & HX & Hc & Hl & Hns)%call_plot_kmeans_step_ok
          & ->%assign_ok)%bind_ok.
  exists X, centers, labels. simpl. rewrite Hns. auto.
Qed.

(** One iteration of the comprehension. *)
Lemma cluster_mean_ok i w p w' :
  cluster_mean i w = (Ok p, w') ->
  exists X labels sel,
    ns w !! "X" = Some (VArray X) /\ ns w !! "labels" = Some (VInts labels) /\
    bool_index X (eq_mask labels i) = Ok sel /\ p = mean0 sel /\
    w' = add_log ("ndarray.mean", None) w.
Proof.
  unfold cluster_mean.
  intros (X & ? & [HX ->]%get_array_ok & Hk)%bind_ok.
  apply bind_ok in Hk as (labels & ? & [Hl ->]%get_ints_ok & Hk).
  apply bind_ok in Hk as (sel & ? & [Hsel ->]%lift_ok & Hk).
  apply libcall_ok in Hk as [[= <-] ->].
  exists X, labels, sel. auto.
Qed.

(** The M-step statement: five means, one per cluster index, put together
    by [np.array] and bound to [centers]. *)
Lemma recompute_centers_ok w u w' :
  recompute_centers w = (Ok u, w') ->
  exists X labels centers,
    ns w !! "X" = Some (VArray X) /\ ns w !! "labels" = Some (VInts labels) /\
    m_step X labels = Ok centers /\
    ns w' = <["centers" := VArray centers]> (ns w) /\
    log w' = log w ++ replicate 5 ("ndarray.mean", None) ++ [("np.array", None)].
Proof.
  unfold recompute_centers.
  intros ([] & ? & [_ ->]%use_ok & Hk)%bind_ok.
  apply bind_ok in Hk as (rows & w1 & Hrows & Hk).
  apply bind_ok in Hk as (centers & w2 & [[= <-] ->]%libcall_ok & ->%assign_ok).
  simpl in Hrows.
  apply bind_ok in Hrows as (p0 & ? & (X & labels & s0 & HX & Hl & Hs0 & -> & ->)%cluster_mean_ok & Hrows).
  apply bind_ok in Hrows as (r1 & ? & Hrows & [-> ->]%ret_ok).
  apply bind_ok in Hrows as (p1 & ? & (X1 & labels1 & s1 & HX1 & Hl1 & Hs1 & -> & ->)%cluster_mean_ok & Hrows).
  apply bind_ok in Hrows as (r2 & ? & Hrows & [-> ->]%ret_ok).
  apply bind_ok in Hrows as (p2 & ? & (X2 & labels2 & s2 & HX2 & Hl2 & Hs2 & -> & ->)%cluster_mean_ok & Hrows).
  apply bind_ok in Hrows as (r3 & ? & Hrows & [-> ->]%ret_ok).
  apply bind_ok in Hrows as (p3 & ? & (X3 & labels3 & s3 & HX3 & Hl3 & Hs3 & -> & ->)%cluster_mean_ok & Hrows).
  apply bind_ok in Hrows as (r4 & ? & Hrows & [-> ->]%ret_ok).
  apply bind_ok in Hrows as (p4 & ? & (X4 & labels4 & s4 & HX4 & Hl4 & Hs4 & -> & ->)%cluster_mean_ok & Hrows).
  apply bind_ok in Hrows as (r5 & ? & [-> ->]%ret_ok & [-> ->]%ret_ok).
  simpl in *.
  assert (X1 = X /\ X2 = X /\ X3 = X /\ X4 = X) as (-> & -> & -> & ->)
    by (repeat split; congruence).
  assert (labels1 = labels /\ labels2 = labels /\ labels3 = labels /\ labels4 = labels)
    as (-> & -> & -> & ->) by (repeat split; congruence).
  exists X, labels, [mean0 s0; mean0 s1; mean0 s2; mean0 s3; mean0 s4].
  split; [exact HX|]. split; [exact Hl|]. split.
  - unfold m_step. simpl. rewrite Hs0, Hs1, Hs2, Hs3, Hs4. reflexivity.
  - split; [reflexivity|]. now rewrite <- !app_assoc.
Qed.

Lemma m_step_shown_ok t w u w' :
  m_step_shown t w = (Ok u, w') ->
  exists X labels centers labels',
    ns w !! "X" = Some (VArray X) /\ ns w !! "labels" = Some (VInts labels) /\
    m_step X labels = Ok centers /\
    pairwise_distances_argmin X centers = Ok labels' /\
    ns w' = <["centers" := VArray centers]> (ns w).
Proof.
  unfold m_step_shown.
  intros ([] & w1 & (X & labels & centers & HX & Hl & Hm & Hns & _)%recompute_centers_ok
          & Hk)%bind_ok.
  apply bind_ok in Hk as (labels' & w2 & (X' & centers' & HX' & Hc' & Hl' & Hns')%call_plot_kmeans_step_ok & [_ ->]%ret_ok).
  rewrite Hns in HX', Hc'.
  rewrite lookup_insert_ne in HX' by done. rewrite lookup_insert_eq in Hc'.
  assert (X' = X) as -> by congruence. injection Hc' as <-.
  exists X, labels, centers, labels'. rewrite Hns', Hns. auto.
Qed.

(** *** Finite and non-finite centers *)

Lemma finite_rows_lookup (a : array) (pts : list qpoint) (i : nat) (p : point) :
  finite_rows a = Some pts -> a !! i = Some p -> is_Some (finite_point p).
Proof.
  intros Hpts Hp. apply mapM_Some in Hpts.
  destruct (Forall2_lookup_l _ _ _ _ _ Hpts Hp) as (q & _ & Hq). eauto.
Qed.

Lemma assigned_finite_nil (X : array) (xs : list qpoint) (labels : list nat) (i : nat) :
  finite_rows X = Some xs -> assigned xs labels i = [] -> assigned X labels i = [].
Proof.
  intros HX Hnil. pose proof (assigned_finite X xs labels i HX) as Hfin.
  apply finite_rows_length in Hfin. rewrite Hnil in Hfin.
  destruct (assigned X labels i); [reflexivity|discriminate].
Qed.

(** When the data is finite and no cluster is empty, the M-step yields the
    arithmetic means. *)
Lemma m_step_means (X : array) (xs : list qpoint) (labels : list nat) (centers : array) :
  finite_rows X = Some xs -> m_step X labels = Ok centers ->
  (forall i, i < 5 -> assigned X labels i <> []) ->
  recomputes_means X labels centers.
Proof.
  intros HX Hm Hne i Hi. exists (assigned xs labels i).
  pose proof (assigned_finite X xs labels i HX) as Hfin.
  assert (Hpts : assigned xs labels i <> []).
  { intros Hnil. apply (Hne i Hi). eapply assigned_finite_nil; eauto. }
  split; [exact Hfin|]. split; [exact Hpts|].
  rewrite (lookup_m_step X labels centers i Hm Hi).
  f_equal. now apply mean0_arithmetic_mean.
Qed.

(** The centers are all finite exactly when no cluster is empty. *)
Lemma m_step_finite_iff (X : array) (xs : list qpoint) (labels : list nat) (centers : array) :
  finite_rows X = Some xs -> m_step X labels = Ok centers ->
  is_Some (finite_rows centers) <-> (forall i, i < 5 -> assigned X labels i <> []).
Proof.
  intros HX Hm. split.
  - intros [cs Hcs] i Hi Hnil.
    pose proof (lookup_m_step X labels centers i Hm Hi) as Hc.
    rewrite Hnil, mean0_empty in Hc.
    destruct (finite_rows_lookup _ _ _ _ Hcs Hc) as [q Hq]. discriminate.
  - intros Hne. pose proof (m_step_means X xs labels centers HX Hm Hne) as Hmeans.
    unfold finite_rows. apply mapM_is_Some, Forall_forall.
    intros p [i Hp]%list_elem_of_lookup.
    assert (Hi : i < 5).
    { apply lookup_lt_Some in Hp. destruct (length_m_step _ _ _ Hm) as [Hlen _]. lia. }
    destruct (Hmeans i Hi) as (pts & _ & _ & Hc).
    pose proof (eq_trans (eq_sym Hp) Hc) as Heq. injection Heq as ->. simpl. eauto.
Qed.

Lemma assigns_nearest_finite (X centers : array) (labels : list nat) :
  assigns_nearest X centers labels ->
  is_Some (finite_rows X) /\ is_Some (finite_rows centers).
Proof. intros (xs & cs & -> & -> & _). eauto. Qed.


Ltac to_rounds Hrun :=
  lazymatch type of Hrun with
  | (e_step _ ≫= _) _ = _ => idtac
  | _ =>
      let a := fresh "a" in
      let w := fresh "w" in
      apply bind_ok in Hrun as (a & w & _ & Hrun);
      lazymatch type of a with
      | prod _ _ => destruct a
      | _ => idtac
      end;
      to_rounds Hrun
  end.

Lemma kmeans_illustration_rounds w w' :
  cell_kmeans_steps w = (Ok tt, w') ->
  exists X C0 L1 C1 L2 C2 L3 C3 L4,
    pairwise_distances_argmin X C0 = Ok L1 /\ m_step X L1 = Ok C1 /\
    pairwise_distances_argmin X C1 = Ok L2 /\ m_step X L2 = Ok C2 /\
    pairwise_distances_argmin X C2 = Ok L3 /\ m_step X L3 = Ok C3 /\
    pairwise_distances_argmin X C3 = Ok L4 /\
    ns w' !! "X" = Some (VArray X) /\
    ns w' !! "labels" = Some (VInts L3) /\
    ns w' !! "centers" = Some (VArray C3).
Proof.
  intros Hrun. unfold cell_kmeans_steps in Hrun. to_rounds Hrun.
  apply bind_ok in Hrun as ([] & s1 & (X & C0 & L1 & HX & HC0 & HL1 & Hns1)%e_step_ok & Hrun).
  apply bind_ok in Hrun as ([] & s2 & (X2 & L1' & C1 & L2' & HX2 & HL1' & HC1 & HL2' & Hns2)%m_step_shown_ok & Hrun).
  rewrite Hns1 in HX2, HL1'.
  rewrite lookup_insert_ne in HX2 by done. rewrite lookup_insert_eq in HL1'.
  assert (X2 = X) as -> by congruence. injection HL1' as <-.
  apply bind_ok in Hrun as ([] & s3 & (X3 & C1' & L2 & HX3 & HC1' & HL2 & Hns3)%e_step_ok & Hrun).
  rewrite Hns2 in HX3, HC1'.
  rewrite lookup_insert_ne, Hns1, lookup_insert_ne in HX3 by done.
  rewrite lookup_insert_eq in HC1'.
  assert (X3 = X) as -> by congruence. injection HC1' as <-.
  apply bind_ok in Hrun as ([] & s4 & (X4 & L2'' & C2 & L3' & HX4 & HL2'' & HC2 & HL3' & Hns4)%m_step_shown_ok & Hrun).
  assert (HXw3 : ns s3 !! "X" = Some (VArray X)).
  { rewrite Hns3, lookup_insert_ne, Hns2, lookup_insert_ne, Hns1, lookup_insert_ne by done.
    exact HX. }
  rewrite HXw3 in HX4. injection HX4 as <-.
  rewrite Hns3, lookup_insert_eq in HL2''. injection HL2'' as <-.
  apply bind_ok in Hrun as ([] & s5 & (X5 & C2' & L3 & HX5 & HC2' & HL3 & Hns5)%e_step_ok & Hrun).
  assert (HXw4 : ns s4 !! "X" = Some (VArray X)).
  { rewrite Hns4, lookup_insert_ne by done. exact HXw3. }
  rewrite HXw4 in HX5. injection HX5 as <-.
  rewrite Hns4, lookup_insert_eq in HC2'. injection HC2' as <-.
  apply m_step_shown_ok in Hrun as (X6 & L3'' & C3 & L4 & HX6 & HL3'' & HC3 & HL4 & Hns6).
  assert (HXw5 : ns s5 !! "X" = Some (VArray X)).
  { rewrite Hns5, lookup_insert_ne by done. exact HXw4. }
  rewrite HXw5 in HX6. injection HX6 as <-.
  rewrite Hns5, lookup_insert_eq in HL3''. injection HL3'' as <-.
  exists X, C0, L1, C1, L2, C2, L3, C3, L4.
  repeat (split; [assumption|]).
  rewrite Hns6. split; [|split].
  - rewrite lookup_insert_ne by done. exact HXw5.
  - rewrite lookup_insert_ne, Hns5 by done. apply lookup_insert_eq.
  - apply lookup_insert_eq.
Qed.

End Returns.



(** ** The M-step statement never raises on matching shapes *)

Section CenterRecomputation.
Context `{Library}.

Lemma bind_run {A B} (m : M A) (f : A -> M B) w a w1 :
  m w = (Ok a, w1) -> (m ≫= f) w = f a w1.
Proof. unfold mbind, M_bind. now intros ->. Qed.

Lemma use_run x w : is_Some (ns w !! x) -> use x w = (Ok tt, w).
Proof. intros [v Hv]. unfold use, load, mbind, M_bind. now rewrite Hv. Qed.

Lemma get_array_run x w a : ns w !! x = Some (VArray a) -> get_array x w = (Ok a, w).
Proof. intros Hv. unfold get_array, load, mbind, M_bind. now rewrite Hv. Qed.

Lemma get_ints_run x w l : ns w !! x = Some (VInts l) -> get_ints x w = (Ok l, w).
Proof. intros Hv. unfold get_ints, load, mbind, M_bind. now rewrite Hv. Qed.

Lemma cluster_mean_run i w X labels :
  ns w !! "X" = Some (VArray X) ->
  ns w !! "labels" = Some (VInts labels) ->
  length labels = length X ->
  cluster_mean i w
  = (Ok (mean0 (assigned X labels i)), add_log ("ndarray.mean", None) w).
Proof.
  intros HX Hl Hlen. unfold cluster_mean.
  rewrite (bind_run _ _ _ _ _ (get_array_run _ _ _ HX)).
  rewrite (bind_run _ _ _ _ _ (get_ints_run _ _ _ Hl)).
  rewrite bool_index_assigned by exact Hlen. reflexivity.
Qed.

Lemma comprehension_run (l : list nat) w X labels :
  ns w !! "X" = Some (VArray X) ->
  ns w !! "labels" = Some (VInts labels) ->
  length labels = length X ->
  exists w', mapM cluster_mean l w
             = (Ok (map (fun i => mean0 (assigned X labels i)) l), w').
Proof.
  intros HX Hl Hlen. revert w HX Hl.
  induction l as [|i l IH]; intros w HX Hl; simpl.
  - eexists. reflexivity.
  - rewrite (bind_run _ _ _ _ _ (cluster_mean_run i w X labels HX Hl Hlen)).
    destruct (IH (add_log ("ndarray.mean", None) w) HX Hl) as [w' Hrun].
    rewrite (bind_run _ _ _ _ _ Hrun). eexists. reflexivity.
Qed.

Lemma recompute_centers_returns w X labels :
  is_Some (ns w !! "np") ->
  ns w !! "X" = Some (VArray X) ->
  ns w !! "labels" = Some (VInts labels) ->
  length labels = length X ->
  exists w', recompute_centers w = (Ok tt, w').
Proof.
  intros Hnp HX Hl Hlen. unfold recompute_centers.
  rewrite (bind_run _ _ _ _ _ (use_run _ _ Hnp)).
  destruct (comprehension_run (seq 0 5) w X labels HX Hl Hlen) as [w' Hrun].
  rewrite (bind_run _ _ _ _ _ Hrun).
  eexists. reflexivity.
Qed.

End CenterRecomputation.



(** ** The ellipses of a covariance *)

Section Ellipses.
Context `{Library}.

Lemma libcall_pure_ok {A} name (x : A) w a w' :
  libcall name (Ok x) w = (Ok a, w') -> a = x /\ w' = add_log (name, None) w.
Proof. intros [[= ->] ->]%libcall_ok. auto. Qed.

Lemma new_ellipse_ok e w e' w' :
  new_ellipse e w = (Ok e', w') -> e' = e /\ w' = add_log ("Ellipse", None) w.
Proof.
  unfold new_ellipse. intros ([] & w1 & [_ ->]%libcall_ok & [-> ->]%ret_ok)%bind_ok. auto.
Qed.

Lemma patches_ok position width height angle kwargs (l : list nat) w rows w' :
  mapM (fun nsig =>
          use "Ellipse";;
          e ← new_ellipse (Ellipse position (nd_scale nsig width) (nd_scale nsig height)
                 angle kwargs);
          plot "ax.add_patch" (AddPatch e)) l w = (Ok rows, w') ->
  canvas w' = canvas w ++
    map (fun nsig => AddPatch (Ellipse position (nd_scale nsig width)
                                 (nd_scale nsig height) angle kwargs)) l.
Proof.
  revert w rows. induction l as [|nsig l IH]; intros w rows; simpl.
  - intros [-> ->]%ret_ok. now rewrite app_nil_r.
  - intros ([] & w1 & Hbody & Hk)%bind_ok.
    apply bind_ok in Hk as (rest & w2 & Hrest & [_ ->]%ret_ok).
    apply bind_ok in Hbody as ([] & ? & [_ ->]%use_ok & Hbody).
    apply bind_ok in Hbody as (e & ? & [-> ->]%new_ellipse_ok & ->%plot_ok).
    rewrite (IH _ _ Hrest). simpl. now rewrite <- app_assoc.
Qed.

Lemma gca_ok (ax : bool) w u w' :
  (if ax then mret tt else use "plt";; plt_gca) w = (Ok u, w') -> canvas w' = canvas w.
Proof.
  destruct ax.
  - now intros [_ ->]%ret_ok.
  - intros ([] & ? & [_ ->]%use_ok & [_ ->]%libcall_ok)%bind_ok. reflexivity.
Qed.

(** What [draw_ellipse] has done when it returns. *)
Lemma draw_ellipse_ok position covariance ax kwargs w u w' :
  draw_ellipse position covariance ax kwargs w = (Ok u, w') ->
  exists angle width height,
    canvas w' = canvas w ++ sigma_patches position width height angle kwargs /\
    match as_mat2 covariance with
    | Some m =>
        exists U s Vt, lib_svd m = Ok (U, s, Vt) /\
          angle = lib_degrees (lib_arctan2 (fst (snd U)) (fst (fst U))) /\
          width = Scalar (fmul (of_nat 2) (lib_sqrt (fst s))) /\
          height = Scalar (fmul (of_nat 2) (lib_sqrt (snd s)))
    | None =>
        angle = Fin 0 /\
        unpack2 (nd_scale 2 (nd_map lib_sqrt covariance)) = Ok (width, height)
    end.
Proof.
  unfold draw_ellipse.
  intros ([] & w0 & Hax%gca_ok & Hk)%bind_ok.
  apply bind_ok in Hk as ([angle [width height]] & w1 & Hdims & Hk).
  apply bind_ok in Hk as (rows & w2 & Hloop%patches_ok & [_ ->]%ret_ok).
  exists angle, width, height.
  destruct (as_mat2 covariance) as [m|].
  - apply bind_ok in Hdims as ([] & ? & [_ ->]%use_ok & Hdims).
    apply bind_ok in Hdims as ([[U s] Vt] & ? & [Hsvd ->]%libcall_ok & Hdims).
    apply bind_ok in Hdims as ([] & ? & [_ ->]%use_ok & Hdims).
    apply bind_ok in Hdims as ([] & ? & [_ ->]%use_ok & Hdims).
    apply bind_ok in Hdims as (a & ? & [-> ->]%libcall_pure_ok & Hdims).
    apply bind_ok in Hdims as (angle' & ? & [-> ->]%libcall_pure_ok & Hdims).
    apply bind_ok in Hdims as ([] & ? & [_ ->]%use_ok & Hdims).
    apply bind_ok in Hdims as (r & ? & [-> ->]%libcall_pure_ok & Hdims).
    apply bind_ok in Hdims as (wh & ? & [Hwh ->]%lift_ok & [Heq ->]%ret_ok).
    injection Heq as -> <-.
    simpl in Hwh. injection Hwh as <- <-.
    split; [rewrite Hloop; simpl; now rewrite Hax|].
    exists U, s, Vt. auto.
  - apply bind_ok in Hdims as ([] & ? & [_ ->]%use_ok & Hdims).
    apply bind_ok in Hdims as (r & ? & [-> ->]%libcall_pure_ok & Hdims).
    apply bind_ok in Hdims as (wh & ? & [Hwh ->]%lift_ok & [Heq ->]%ret_ok).
    injection Heq as -> <-.
    split; [rewrite Hloop; simpl; now rewrite Hax|]. auto.
Qed.

Lemma nd_map_nd_map (f g : float64 -> float64) (a : ndarray) :
  nd_map g (nd_map f a) = nd_map (fun x => g (f x)) a.
Proof.
  destruct a as [x|v|rows]; unfold nd_map; [reflexivity| |]; f_equal.
  - apply map_map.
  - rewrite map_map. apply map_ext. intros r. apply map_map.
Qed.

(** Unpacking into two names needs a first axis of length 2. *)
Lemma unpack2_first_axis (f : float64 -> float64) (a : ndarray) p :
  unpack2 (nd_map f a) = Ok p -> head (shape a) = Some 2.
Proof.
  destruct a as [x|v|rows]; simpl.
  - discriminate.
  - destruct v as [|x [|y [|z v]]]; simpl; try discriminate. reflexivity.
  - destruct rows as [|r1 [|r2 [|r3 rows]]]; simpl; try discriminate. reflexivity.
Qed.

Lemma unpack2_refused (f : float64 -> float64) (a : ndarray) :
  head (shape a) <> Some 2 -> exists e, unpack2 (nd_map f a) = Raise e.
Proof.
  intros Hshape. destruct (unpack2 (nd_map f a)) as [p|e] eqn:Hp; [|eauto].
  apply unpack2_first_axis in Hp. contradiction.
Qed.

(** With a covariance that is neither (2, 2) nor has a first axis of length
    2, [draw_ellipse] raises before any patch is added. *)
Lemma draw_ellipse_refused position covariance ax kwargs w :
  as_mat2 covariance = None -> head (shape covariance) <> Some 2 ->
  (exists e, fst (draw_ellipse position covariance ax kwargs w) = Raise e) /\
  canvas (snd (draw_ellipse position covariance ax kwargs w)) = canvas w.
Proof.
  intros Hmat Hshape.
  destruct (unpack2_refused (fun x => fmul (of_nat 2) (lib_sqrt x)) covariance Hshape)
    as [e He].
  assert (He' : unpack2 (nd_scale 2 (nd_map lib_sqrt covariance)) = Raise e).
  { unfold nd_scale. rewrite nd_map_nd_map. exact He. }
  unfold draw_ellipse. rewrite Hmat.
  unfold use, load, plt_gca, np_sqrt, libcall, lift, mbind, M_bind, mret, M_ret.
  destruct ax; simpl.
  - destruct (ns w !! "np"); simpl; [|eauto]. rewrite He'. simpl. eauto.
  - destruct (ns w !! "plt"); simpl; [|eauto].
    destruct (ns w !! "np"); simpl; [|eauto]. rewrite He'. simpl. eauto.
Qed.

End Ellipses.

(** C10 (as the code has it): when [draw_ellipse] returns it has added
    exactly three ellipse patches, scaled by 1, 2 and 3.  For a covariance
    of shape (2, 2) their angle comes from the SVD of the covariance and
    width and height are 2*sqrt of its singular values; for another
    covariance the angle is 0 and width and height are the two items of
    2*sqrt(covariance), which therefore needs a first axis of length 2
    (shape (2,), say); with a covariance of any other shape the unpacking
    raises and no patch is added. *)
Theorem draw_ellipse_three_patches `{Library} (position : point) (covariance : ndarray)
    (ax : bool) (kwargs : list (string * value)) (w w' : world) :
  (draw_ellipse position covariance ax kwargs w = (Ok tt, w') ->
   exists angle width height,
     canvas w' = canvas w ++ sigma_patches position width height angle kwargs /\
     match as_mat2 covariance with
     | Some m =>
         exists U s Vt, lib_svd m = Ok (U, s, Vt) /\
           angle = lib_degrees (lib_arctan2 (fst (snd U)) (fst (fst U))) /\
           width = Scalar (fmul (of_nat 2) (lib_sqrt (fst s))) /\
           height = Scalar (fmul (of_nat 2) (lib_sqrt (snd s)))
     | None =>
         angle = Fin 0 /\
         unpack2 (nd_scale 2 (nd_map lib_sqrt covariance)) = Ok (width, height)
     end) /\
  (as_mat2 covariance = None -> head (shape covariance) <> Some 2 ->
   (exists e, fst (draw_ellipse position covariance ax kwargs w) = Raise e) /\
   canvas (snd (draw_ellipse position covariance ax kwargs w)) = canvas w).
Proof.
  split.
  - apply draw_ellipse_ok.
  - apply draw_ellipse_refused.
Qed.

Lemma draw_ellipse_three_patches_witness :
  exists angle width height,
    canvas (snd (@draw_ellipse (grid_library None) (Fin 1, Fin 2)
                   (Vector [Fin 4; Fin 9]) true [] toy_session))
    = sigma_patches (Fin 1, Fin 2) width height angle [] /\
    angle = Fin 0.
Proof.
  destruct (proj1 (@draw_ellipse_three_patches (grid_library None) (Fin 1, Fin 2)
              (Vector [Fin 4; Fin 9]) true [] toy_session
              (snd (@draw_ellipse (grid_library None) (Fin 1, Fin 2)
                      (Vector [Fin 4; Fin 9]) true [] toy_session))))
    as (angle & width & height & Hcanvas & Hangle & _).
  - vm_compute. reflexivity.
  - exists angle, width, height. split; [exact Hcanvas|exact Hangle].
Defined.

(** A spherical covariance is a 0-d array: [draw_ellipse] raises and the
    figure is left without an ellipse. *)
Lemma draw_ellipse_scalar_covariance :
  ~ @adds_three_patches (grid_library None) (Fin 1, Fin 2) (Scalar (Fin 4)) true []
      toy_session.
Proof.
  intros (angle & width & height & Hcanvas).
  vm_compute in Hcanvas. discriminate.
Qed.

(** ** Which names a piece of cell code reads *)

Section Names.
Context `{Library}.






















































End Names.

(** ** Cells that read the bindings of earlier cells *)

Section EarlierBindings.
Context `{Library}.









End EarlierBindings.




(** ** Library calls and the notebook's own k-Means step *)

Section Calls.
Context `{Library}.

Lemma calls_of_log {A} (m : M A) w l :
  log (snd (m w)) = log w ++ l -> calls m w = l.
Proof. intros Hlog. unfold calls. rewrite Hlog. apply drop_app_length. Qed.

Lemma svd_single_call m : single_library_call (np_linalg_svd m).
Proof. intros w. now rewrite (calls_of_log _ w [("np.linalg.svd", outcome (lib_svd m))]). Qed.

Lemma check_random_state_log rs w : log (snd (check_random_state rs w)) = log w.
Proof. now destruct rs. Qed.

Lemma fit_log l X w :
  is_Some (heap w !! l) -> exists c, log (snd (fit l X w)) = log w ++ [c].
Proof.
  intros [o Ho]. unfold fit, deref, check_random_state, mbind, M_bind. simpl. rewrite Ho.
  destruct o as [k rs f|k ct rs f]; destruct rs as [seed|]; simpl;
    match goal with
    | |- context [lib_kmeans_fit ?a ?b ?c] => destruct (lib_kmeans_fit a b c)
    | |- context [lib_gmm_fit ?a ?b ?c ?d] => destruct (lib_gmm_fit a b c d)
    end; simpl; eexists; reflexivity.
Qed.

(** Fitting an estimator is one call into scikit-learn. *)
Lemma fit_single_call l X w : is_Some (heap w !! l) -> length (calls (fit l X) w) = 1.
Proof.
  intros Hl. destruct (fit_log l X w Hl) as [c Hc].
  now rewrite (calls_of_log _ w [c] Hc).
Qed.

Lemma fit_predict_log l X w k rs f :
  heap w !! l = Some (KMeansObj k rs f) ->
  exists c, log (snd (fit_predict l X w)) = log w ++ [c].
Proof.
  intros Ho. unfold fit_predict, deref, check_random_state, mbind, M_bind. simpl.
  rewrite Ho. destruct rs as [seed|]; simpl;
    match goal with
    | |- context [lib_kmeans_fit ?a ?b ?c] => destruct (lib_kmeans_fit a b c)
    | |- context [lib_gmm_fit ?a ?b ?c ?d] => destruct (lib_gmm_fit a b c d)
    end; simpl; eexists; reflexivity.
Qed.

Lemma fit_predict_single_call l X w k rs f :
  heap w !! l = Some (KMeansObj k rs f) -> length (calls (fit_predict l X) w) = 1.
Proof.
  intros Hl. destruct (fit_predict_log l X w k rs f Hl) as [c Hc].
  now rewrite (calls_of_log _ w [c] Hc).
Qed.

End Calls.

(** C3 (as the code has it): the covariance decomposition
    ([np.linalg.svd]), the fits of the clusterings and of the mixture
    ([fit], [fit_predict]) and the assignment step of the illustrated
    k-Means iteration ([pairwise_distances_argmin], the only call of
    [plot_kmeans_step] that is not drawing) are each one direct call into a
    library.  The center-recomputation step of that iteration is the
    notebook's own code: a comprehension over the five cluster indices
    that selects the rows of each cluster and calls [mean] once per
    cluster, the five rows being put together by one [np.array]. *)
Theorem library_calls_and_own_recomputation `{Library} (w w' : world) (m : mat2)
    (l : nat) (X centers : array) (step_title : string) (labels : list nat) :
  single_library_call (np_linalg_svd m) /\
  (is_Some (heap w !! l) -> length (calls (fit l X) w) = 1) /\
  (forall k rs f, heap w !! l = Some (KMeansObj k rs f) ->
     length (calls (fit_predict l X) w) = 1) /\
  (plot_kmeans_step X centers step_title w = (Ok labels, w') ->
     pairwise_distances_argmin X centers = Ok labels /\
     calls (plot_kmeans_step X centers step_title) w
     = [("pairwise_distances_argmin", None); ("plt.scatter", None);
        ("sns.scatterplot", None); ("plt.title", None); ("plt.show", None)]) /\
  (recompute_centers w = (Ok tt, w') ->
     calls recompute_centers w
     = replicate 5 ("ndarray.mean", None) ++ [("np.array", None)] /\
     exists X labels centers,
       ns w !! "X" = Some (VArray X) /\ ns w !! "labels" = Some (VInts labels) /\
       m_step X labels = Ok centers /\
       ns w' !! "centers" = Some (VArray centers)).
Proof.
  split; [apply svd_single_call|].
  split; [apply fit_single_call|].
  split; [intros k rs f; apply fit_predict_single_call|].
  split.
  - intros Hrun. destruct (plot_kmeans_step_ok _ _ _ _ _ _ Hrun) as (Hl & _ & Hlog).
    split; [exact Hl|]. apply calls_of_log. now rewrite Hrun.
  - intros Hrun.
    destruct (recompute_centers_ok _ _ _ Hrun) as (X' & labels' & centers' & HX & Hl & Hm & Hns & Hlog).
    split; [apply calls_of_log; now rewrite Hrun|].
    exists X', labels', centers'. repeat (split; [assumption|]).
    rewrite Hns. apply lookup_insert_eq.
Qed.

Lemma library_calls_and_own_recomputation_witness :
  calls recompute_centers toy_session
  = replicate 5 ("ndarray.mean", None) ++ [("np.array", None)].
Proof.
  destruct (@library_calls_and_own_recomputation (grid_library None) toy_session
              (snd (recompute_centers toy_session)) ((Fin 1, Fin 0), (Fin 0, Fin 1))
              0 [] [] "" [])
    as (_ & _ & _ & _ & Hown).
  apply Hown. vm_compute. reflexivity.
Defined.

(** The M-step statement is not a single library call: on five points it
    makes six calls, driven by the notebook's own loop. *)
Lemma recompute_centers_is_own_code : ~ single_library_call recompute_centers.
Proof.
  intros Hsingle. specialize (Hsingle toy_session).
  vm_compute in Hsingle. discriminate.
Qed.

(** * Further facts *)

(** ** The reconstruction at full rank, and at rank 0 *)




(** X2: The squared error of the rank-k reconstruction is the sum of the squares
    of the singular values from the k-th on: what is lost is exactly the
    weight of the components left out. *)
Theorem squared_error_dropped_values (X : nat -> nat -> R) (d : svd_factors) (k : nat) :
  is_svd X d -> k <= n_sing d ->
  (squared_error X d k
   = rsum (n_sing d) (fun c => Rsqr (svd_S d c)) - rsum k (fun c => Rsqr (svd_S d c)))%R.
Proof.
  intros Hsvd Hk. rewrite (squared_error_tail X d Hsvd k).
  rewrite <- rsum_min_dropped. now rewrite Nat.min_l by exact Hk.
Qed.

Lemma squared_error_dropped_values_witness :
  (squared_error diag_matrix diag_factors 1 = rsum 2 (fun c => Rsqr (svd_S diag_factors c))
     - rsum 1 (fun c => Rsqr (svd_S diag_factors c)))%R.
Proof.
  apply (squared_error_dropped_values diag_matrix diag_factors 1).
  - exact diag_factors_is_svd.
  - simpl. lia.
Defined.

(** ** The density and the E- and M-step of the mixture model *)

Section MixtureSteps.
Local Open Scope R_scope.

Lemma mahalanobis_nonneg x m s : positive_definite s -> 0 <= mahalanobis x m s.
Proof.
  destruct s as [[a b] [c e]]. unfold positive_definite, mahalanobis, det2. simpl.
  intros (<- & Ha & Hdet).
  set (u := fst x - fst m). set (v := snd x - snd m).
  apply Rmult_le_pos; [|left; now apply Rinv_0_lt_compat].
  assert (0 <= a * (u * (e * u - b * v) + v * (a * v - b * u))).
  { replace (a * (u * (e * u - b * v) + v * (a * v - b * u)))
      with ((a * v - b * u) ^ 2 + (a * e - b * b) * u ^ 2) by ring.
    apply Rplus_le_le_0_compat; [apply pow2_ge_0|].
    apply Rmult_le_pos; [lra|apply pow2_ge_0]. }
  nra.
Qed.

Lemma mahalanobis_at_mean m s : mahalanobis m m s = 0.
Proof.
  destruct s as [[a b] [c e]]. unfold mahalanobis. simpl.
  rewrite !Rminus_diag. unfold Rdiv. ring.
Qed.

Lemma responsibility_bounds gmm x g :
  fitted_mixture gmm -> g ∈ gmm -> 0 <= responsibility gmm x g <= 1.
Proof.
  intros Hfit Hg. pose proof (mixture_density_pos gmm x Hfit) as HD.
  destruct Hfit as [Hall Hsum].
  assert (Hterms : Forall (fun g => 0 <= mix g * normal_pdf x g) gmm).
  { eapply Forall_impl; [exact Hall|]. intros g' [Hm Hd].
    apply Rmult_le_pos; [exact Hm|]. left. now apply normal_pdf_pos. }
  assert (Hle : mix g * normal_pdf x g <= mixture_density gmm x).
  { unfold mixture_density. clear HD Hall Hsum.
    induction gmm as [|g' gmm IH]; [inversion Hg|].
    apply Forall_cons in Hterms as [Hg' Hterms]. simpl.
    assert (0 <= Rlist_sum (map (fun g => mix g * normal_pdf x g) gmm)).
    { clear IH Hg. induction Hterms; simpl; [lra|]. lra. }
    apply elem_of_cons in Hg as [->|Hg]; [lra|].
    specialize (IH Hg Hterms). lra. }
  rewrite Forall_forall in Hterms. specialize (Hterms g Hg).
  unfold responsibility. split.
  - apply Rmult_le_pos; [exact Hterms|]. left. now apply Rinv_0_lt_compat.
  - apply Rmult_le_reg_r with (mixture_density gmm x); [exact HD|].
    unfold Rdiv. rewrite Rmult_assoc, Rinv_l by lra. lra.
Qed.

Lemma responsibility_pos gmm x g :
  fitted_mixture gmm -> g ∈ gmm -> 0 < mix g -> 0 < responsibility gmm x g.
Proof.
  intros Hfit Hg Hmix. pose proof (mixture_density_pos gmm x Hfit) as HD.
  destruct Hfit as [Hall _]. rewrite Forall_forall in Hall.
  destruct (Hall g Hg) as [_ Hdet].
  unfold responsibility. apply Rmult_lt_0_compat; [|now apply Rinv_0_lt_compat].
  apply Rmult_lt_0_compat; [exact Hmix|now apply normal_pdf_pos].
Qed.

Lemma member_count_pos gmm X g :
  fitted_mixture gmm -> g ∈ gmm -> 0 < mix g -> X <> [] -> 0 < member_count gmm X g.
Proof.
  intros Hfit Hg Hmix HX. unfold member_count.
  destruct X as [|x X]; [congruence|]. simpl.
  pose proof (responsibility_pos gmm x g Hfit Hg Hmix).
  assert (0 <= Rlist_sum (map (fun x => responsibility gmm x g) X)).
  { clear HX. induction X as [|x' X IH]; simpl; [lra|].
    pose proof (responsibility_bounds gmm x' g Hfit Hg). lra. }
  lra.
Qed.

Lemma Rlist_sum_plus {B} (f g : B -> R) (k : list B) :
  Rlist_sum (map (fun b => f b + g b) k) = Rlist_sum (map f k) + Rlist_sum (map g k).
Proof. induction k as [|b k IH]; simpl; [lra|]. rewrite IH. lra. Qed.

Lemma Rlist_sum_scale_r {B} (f : B -> R) (c : R) (k : list B) :
  Rlist_sum (map (fun b => f b * c) k) = Rlist_sum (map f k) * c.
Proof. induction k as [|b k IH]; simpl; [lra|]. rewrite IH. ring. Qed.

Lemma Rlist_sum_zeros {B} (k : list B) : Rlist_sum (map (fun _ => 0) k) = 0.
Proof. induction k as [|b k IH]; simpl; [reflexivity|]. rewrite IH. lra. Qed.

Lemma Rlist_sum_swap {A B} (f : A -> B -> R) (l : list A) (k : list B) :
  Rlist_sum (map (fun a => Rlist_sum (map (fun b => f a b) k)) l)
  = Rlist_sum (map (fun b => Rlist_sum (map (fun a => f a b) l)) k).
Proof.
  induction l as [|a l IH]; simpl.
  - now rewrite Rlist_sum_zeros.
  - rewrite IH.
    now rewrite (Rlist_sum_plus (fun b => f a b)
                   (fun b => Rlist_sum (map (fun a => f a b) l))).
Qed.

Lemma Rlist_sum_ones {A} (l : list A) : Rlist_sum (map (fun _ => 1) l) = INR (length l).
Proof.
  induction l as [|a l IH]; [reflexivity|].
  change (length (a :: l)) with (S (length l)). rewrite S_INR. simpl. rewrite IH. lra.
Qed.

Lemma member_counts_sum gmm X :
  fitted_mixture gmm -> Rlist_sum (map (member_count gmm X) gmm) = INR (length X).
Proof.
  intros Hfit. unfold member_count.
  rewrite (Rlist_sum_swap (fun g x => responsibility gmm x g)).
  rewrite <- Rlist_sum_ones. f_equal. apply map_ext. intros x.
  now apply responsibilities_sum.
Qed.

End MixtureSteps.

(** X3: The density of a component is largest at its mean. *)
Theorem normal_pdf_peaks_at_mean (x : R * R) (g : gaussian) :
  positive_definite (cov g) -> (normal_pdf x g <= normal_pdf (mu g) g)%R.
Proof.
  intros Hpd. pose proof (mahalanobis_nonneg x (mu g) (cov g) Hpd) as Hm.
  destruct Hpd as (_ & _ & Hdet).
  unfold normal_pdf. rewrite mahalanobis_at_mean.
  apply Rmult_le_compat_l.
  - left. apply Rinv_0_lt_compat, sqrt_lt_R0.
    apply Rmult_lt_0_compat; [|exact Hdet]. apply pow_lt. pose proof PI_RGT_0. lra.
  - rewrite Rmult_0_r, exp_0.
    destruct (Rle_lt_or_eq_dec _ _ Hm) as [Hpos|Heq].
    + pose proof (exp_increasing (- (1 / 2) * mahalanobis x (mu g) (cov g)) 0
                    ltac:(lra)) as Hexp.
      rewrite exp_0 in Hexp. lra.
    + rewrite <- Heq, Rmult_0_r, exp_0. lra.
Qed.

Lemma normal_pdf_peaks_at_mean_witness :
  (normal_pdf (1, 2)%R (Gaussian (1 / 2) (4, 4)%R ((2, 1), (1, 2))%R)
   <= normal_pdf (4, 4)%R (Gaussian (1 / 2) (4, 4)%R ((2, 1), (1, 2))%R))%R.
Proof.
  apply (normal_pdf_peaks_at_mean (1, 2)%R (Gaussian (1 / 2) (4, 4)%R ((2, 1), (1, 2))%R)).
  unfold positive_definite, det2. simpl. repeat split; lra.
Defined.

(** X4: Every responsibility of a fitted mixture is a probability. *)
Theorem responsibility_is_probability (gmm : list gaussian) (x : R * R) (g : gaussian) :
  fitted_mixture gmm -> g ∈ gmm ->
  (0 <= responsibility gmm x g)%R /\ (responsibility gmm x g <= 1)%R.
Proof. intros Hfit Hg. now apply responsibility_bounds. Qed.

Lemma responsibility_is_probability_witness :
  (0 <= responsibility two_blobs (1, 2)%R (Gaussian (1 / 2) (0, 0)%R ((1, 0), (0, 1))%R))%R.
Proof.
  refine (proj1 (responsibility_is_probability two_blobs (1, 2)%R _ two_blobs_fitted _)).
  unfold two_blobs. left.
Defined.

(** X5: The M-step keeps the mixing coefficients a probability vector: the new
    coefficients [N_k / N] are non-negative and sum to 1. *)
Theorem new_mix_sums_to_one (gmm : list gaussian) (X : list (R * R)) :
  fitted_mixture gmm -> X <> [] ->
  Forall (fun g => (0 <= new_mix gmm X g)%R) gmm /\
  Rlist_sum (map (new_mix gmm X) gmm) = 1%R.
Proof.
  intros Hfit HX.
  assert (HN : (0 < INR (length X))%R).
  { apply lt_0_INR. destruct X; [congruence|simpl; lia]. }
  split.
  - apply Forall_forall. intros g Hg. unfold new_mix.
    apply Rmult_le_pos; [|left; now apply Rinv_0_lt_compat].
    unfold member_count. clear HX HN.
    induction X as [|x X IH]; simpl; [lra|].
    pose proof (responsibility_bounds gmm x g Hfit Hg). lra.
  - unfold new_mix. rewrite (Rlist_sum_div gaussian (member_count gmm X)).
    rewrite member_counts_sum by exact Hfit. field. lra.
Qed.

Lemma new_mix_sums_to_one_witness :
  Rlist_sum (map (new_mix two_blobs [(1, 2)%R; (3, 3)%R]) two_blobs) = 1%R.
Proof.
  refine (proj2 (new_mix_sums_to_one two_blobs [(1, 2)%R; (3, 3)%R] two_blobs_fitted _)).
  discriminate.
Defined.

(** X6: The new means weighted by the member counts add up to the data: the
    M-step moves the means but keeps the responsibility-weighted total. *)
Theorem new_means_conserve_data (gmm : list gaussian) (X : list (R * R)) :
  fitted_mixture gmm -> Forall (fun g => (0 < mix g)%R) gmm -> X <> [] ->
  Rlist_sum (map (fun g => (member_count gmm X g * fst (new_mu gmm X g))%R) gmm)
  = Rlist_sum (map fst X) /\
  Rlist_sum (map (fun g => (member_count gmm X g * snd (new_mu gmm X g))%R) gmm)
  = Rlist_sum (map snd X).
Proof.
  intros Hfit Hmix HX.
  assert (Hcount : forall g, g ∈ gmm -> member_count gmm X g <> 0%R).
  { intros g Hg. apply Rgt_not_eq. apply member_count_pos; try assumption.
    rewrite Forall_forall in Hmix. now apply Hmix. }
  assert (Hcoord : forall (pr : R * R -> R),
    Rlist_sum (map (fun g => Rlist_sum (map (fun x => responsibility gmm x g * pr x)%R X)) gmm)
    = Rlist_sum (map pr X)).
  { intros pr.
    rewrite (Rlist_sum_swap (fun g x => (responsibility gmm x g * pr x)%R)).
    f_equal. apply map_ext. intros x.
    transitivity (Rlist_sum (map (responsibility gmm x) gmm) * pr x)%R.
    - apply Rlist_sum_scale_r.
    - rewrite responsibilities_sum by exact Hfit. lra. }
  split.
  - rewrite <- (Hcoord fst). apply f_equal.
    apply map_ext_in. intros g Hg%list_elem_of_In.
    unfold new_mu. simpl. field. now apply Hcount.
  - rewrite <- (Hcoord snd). apply f_equal.
    apply map_ext_in. intros g Hg%list_elem_of_In.
    unfold new_mu. simpl. field. now apply Hcount.
Qed.

Lemma new_means_conserve_data_witness :
  Rlist_sum (map (fun g => (member_count two_blobs [(1, 2)%R; (3, 3)%R] g
                            * fst (new_mu two_blobs [(1, 2)%R; (3, 3)%R] g))%R) two_blobs)
  = Rlist_sum (map fst [(1, 2)%R; (3, 3)%R]).
Proof.
  refine (proj1 (new_means_conserve_data two_blobs [(1, 2)%R; (3, 3)%R]
                   two_blobs_fitted _ _)).
  - unfold two_blobs. repeat constructor; simpl; lra.
  - discriminate.
Defined.

(** ** The labels of an E-step and the selections of an M-step *)

Lemma assigns_nearest_in_range (X centers : array) (labels : list nat) :
  assigns_nearest X centers labels -> Forall (fun l => l < length centers) labels.
Proof.
  intros (xs & cs & _ & Hcs & Hall).
  rewrite <- (finite_rows_length _ _ Hcs).
  induction Hall as [|x l xs' ls (c & Hc & _) _ IH]; constructor; [|exact IH].
  now apply lookup_lt_Some in Hc.
Qed.

Lemma assigned_cons {A} (x : A) (X : list A) (l : nat) (labels : list nat) (i : nat) :
  assigned (x :: X) (l :: labels) i
  = if decide (l = i) then x :: assigned X labels i else assigned X labels i.
Proof. unfold assigned. simpl. rewrite filter_cons. simpl. now destruct (decide (l = i)). Qed.

Lemma concat_selections_cons {A} (x : A) (X : list A) (l : nat) (labels : list nat)
    (s n : nat) :
  concat (map (assigned (x :: X) (l :: labels)) (seq s n))
  ≡ₚ (if decide (s <= l < s + n) then [x] else [])
     ++ concat (map (assigned X labels) (seq s n)).
Proof.
  revert s. induction n as [|n IH]; intros s; simpl.
  - destruct (decide (s <= l < s + 0)); [lia|reflexivity].
  - rewrite IH, assigned_cons.
    destruct (decide (l = s)) as [->|Hne].
    + destruct (decide (S s <= s < S s + n)); [lia|].
      destruct (decide (s <= s < s + S n)); [|lia]. reflexivity.
    + destruct (decide (S s <= l < S s + n)), (decide (s <= l < s + S n));
        try lia; simpl; [|reflexivity].
      symmetry. apply Permutation_middle.
Qed.

Lemma selections_partition {A} (X : list A) (labels : list nat) (n : nat) :
  length labels = length X -> Forall (fun l => l < n) labels ->
  concat (map (assigned X labels) (seq 0 n)) ≡ₚ X.
Proof.
  revert labels. induction X as [|x X IH]; intros [|l labels] Hlen Hall;
    try discriminate.
  - clear. induction (seq 0 n) as [|i rest IH]; [reflexivity|exact IH].
  - apply Forall_cons in Hall as [Hl Hall].
    rewrite concat_selections_cons. destruct (decide (0 <= l < 0 + n)); [|lia].
    simpl. constructor. apply IH; [simpl in Hlen; lia|exact Hall].
Qed.

(** X7: The five selections [X[labels == i]] of an M-step that follows an E-step
    on at most five centers split the data: every row of [X] is in exactly
    one of them. *)
Theorem m_step_selections_partition (X centers : array) (labels : list nat) :
  pairwise_distances_argmin X centers = Ok labels -> length centers <= 5 ->
  concat (map (assigned X labels) (seq 0 5)) ≡ₚ X.
Proof.
  intros Hl%pairwise_distances_argmin_nearest Hlen.
  apply selections_partition.
  - now apply (assigns_nearest_length X centers).
  - eapply Forall_impl; [exact (assigns_nearest_in_range _ _ _ Hl)|].
    simpl. intros l Hlt. lia.
Qed.

Lemma m_step_selections_partition_witness :
  concat (map (assigned [(Fin 0, Fin 0); (Fin 1, Fin 0); (Fin 9, Fin 0)] [0; 0; 1]) (seq 0 5))
  ≡ₚ [(Fin 0, Fin 0); (Fin 1, Fin 0); (Fin 9, Fin 0)].
Proof.
  apply (m_step_selections_partition
           [(Fin 0, Fin 0); (Fin 1, Fin 0); (Fin 9, Fin 0)]
           [(Fin 0, Fin 0); (Fin 10, Fin 0)] [0; 0; 1]).
  - vm_compute. reflexivity.
  - simpl. lia.
Defined.

(** ** What [plot_kmeans_step] shows *)

(** X8: A call of [plot_kmeans_step] that returns has shown one figure: the data
    coloured by the labels, the centers and the title, on top of whatever
    was drawn and not yet shown.  It leaves an empty figure, the bindings
    and the estimator objects as they were, and returns one label per row,
    each the index of a row of [centers]. *)
Theorem plot_kmeans_step_shows_one_figure `{Library} (X centers : array)
    (step_title : string) (w : world) (labels : list nat) (w' : world) :
  plot_kmeans_step X centers step_title w = (Ok labels, w') ->
  effects w' = effects w ++
    [Display (canvas w ++
       [Scatter (col0 X) (col1 X)
          [("c", VInts labels); ("s", VInt 50); ("cmap", VStr "plasma")];
        Scatterplot (col0 centers) (col1 centers)
          [("color", VStr "black"); ("s", VInt 200); ("alpha", VFloat (Fin 0.5))];
        Title step_title])] /\
  canvas w' = [] /\ ns w' = ns w /\ heap w' = heap w /\
  length labels = length X /\ Forall (fun l => l < length centers) labels.
Proof.
  intros Hrun. pose proof Hrun as Hrun'. unfold plot_kmeans_step in Hrun.
  apply bind_ok in Hrun as ([] & ? & [_ ->]%use_ok & Hk).
  apply bind_ok in Hk as (labels' & ? & [Hl ->]%libcall_ok & Hk).
  apply bind_ok in Hk as ([] & ? & [_ ->]%use_ok & Hk).
  apply bind_ok in Hk as ([] & ? & ->%plot_ok & Hk).
  apply bind_ok in Hk as ([] & ? & [_ ->]%use_ok & Hk).
  apply bind_ok in Hk as ([] & ? & ->%plot_ok & Hk).
  apply bind_ok in Hk as ([] & ? & [_ ->]%use_ok & Hk).
  apply bind_ok in Hk as ([] & ? & ->%plot_ok & Hk).
  apply bind_ok in Hk as ([] & ? & [_ ->]%use_ok & Hk).
  apply bind_ok in Hk as ([] & ? & ->%plt_show_ok & Hk).
  apply ret_ok in Hk as [-> ->]. simpl.
  apply pairwise_distances_argmin_nearest in Hl.
  split; [now rewrite <- !app_assoc|].
  repeat (split; [reflexivity|]).
  split; [now apply (assigns_nearest_length X centers)|].
  now apply assigns_nearest_in_range with X.
Qed.

Lemma plot_kmeans_step_shows_one_figure_witness :
  canvas (snd (@plot_kmeans_step (grid_library None)
                 [(Fin 0, Fin 0); (Fin 9, Fin 0)] [(Fin 1, Fin 0)] "t"
                 illustration_session)) = [].
Proof.
  refine (proj1 (proj2 (@plot_kmeans_step_shows_one_figure (grid_library None)
           [(Fin 0, Fin 0); (Fin 9, Fin 0)] [(Fin 1, Fin 0)] "t"
           illustration_session [0; 0] _ _))).
  vm_compute. reflexivity.
Defined.

(** ** How many figures a cell shows *)

Section Figures.
Context `{Library}.

























End Figures.



(** ** Estimators are fitted in place *)

Section Fitting.
Context `{Library}.

Lemma get_ref_ok x w l w' :
  get_ref x w = (Ok l, w') -> ns w !! x = Some (VRef l) /\ w' = w.
Proof.
  unfold get_ref. intros (v & w1 & [Hv ->]%load_ok & Hrun)%bind_ok.
  destruct v; try discriminate. now apply ret_ok in Hrun as [-> ->].
Qed.

Lemma get_floats_ok x w l w' :
  get_floats x w = (Ok l, w') -> ns w !! x = Some (VFloats l) /\
    w' = w.
Proof.
  unfold get_floats. intros (v & w1 & [Hv ->]%load_ok & Hrun)%bind_ok.
  destruct v; try discriminate. now apply ret_ok in Hrun as [-> ->].
Qed.

Lemma deref_ok l w o w' : deref l w = (Ok o, w') -> heap w !! l = Some o /\
    w' = w.
Proof. unfold deref. destruct (heap w !! l); now intros [= <- <-]. Qed.

Lemma store_ok l o w u w' : store l o w = (Ok u, w') -> w' = set_heap <[l:=o]> w.
Proof. now intros [= _ <-]. Qed.

Lemma check_random_state_ok rs w g w' :
  check_random_state rs w = (Ok g, w') ->
  (forall seed, rs = Some seed -> g = Seeded seed) /\
  ns w' = ns w /\ heap w' = heap w /\ canvas w' = canvas w /\ effects w' = effects w.
Proof.
  destruct rs as [seed|]; intros [= <- <-]; (split; [|done]).
  - now intros ? [= <-].
  - discriminate.
Qed.

Lemma fit_ok l X w l' w' :
  fit l X w = (Ok l', w') ->
  l' = l /\
  exists o o', heap w !! l = Some o /\ refitted X o o' /\
    heap w' = <[l:=o']> (heap w) /\
    ns w' = ns w /\ canvas w' = canvas w /\ effects w' = effects w.
Proof.
  unfold fit. intros (o & w1 & [Ho ->]%deref_ok & Hrun)%bind_ok.
  destruct o as [k rs f|k ct rs f].
  - apply bind_ok in Hrun as (g & w1 & (Hg & Hn1 & Hh1 & Hc1 & He1)%check_random_state_ok & Hrun).
    apply bind_ok in Hrun as (r & w2 & [Hr ->]%libcall_ok & Hrun).
    apply bind_ok in Hrun as ([] & w3 & ->%store_ok & [-> ->]%ret_ok).
    split; [reflexivity|]. exists (KMeansObj k rs f), (KMeansObj k rs (Some r)).
    simpl. rewrite Hh1, Hn1, Hc1, He1. repeat split; try done.
    now exists g, r.
  - apply bind_ok in Hrun as (g & w1 & (Hg & Hn1 & Hh1 & Hc1 & He1)%check_random_state_ok & Hrun).
    apply bind_ok in Hrun as (r & w2 & [Hr ->]%libcall_ok & Hrun).
    apply bind_ok in Hrun as ([] & w3 & ->%store_ok & [-> ->]%ret_ok).
    split; [reflexivity|]. exists (GmmObj k ct rs f), (GmmObj k ct rs (Some r)).
    simpl. rewrite Hh1, Hn1, Hc1, He1. repeat split; try done.
    now exists g, r.
Qed.

Lemma predict_ok l X w labels w' :
  predict l X w = (Ok labels, w') ->
  exists o, heap w !! l = Some o /\ predicted_by o X labels /\
    ns w' = ns w /\ heap w' = heap w /\ canvas w' = canvas w /\
    effects w' = effects w.
Proof.
  unfold predict. intros (o & w1 & [Ho ->]%deref_ok & Hrun)%bind_ok.
  exists o. split; [exact Ho|].
  destruct o as [k rs [[centers fl]|]|k ct rs [p|]];
    apply libcall_ok in Hrun as [Hr ->]; try discriminate; simpl; done.
Qed.

Lemma predict_proba_ok l X w probs w' :
  predict_proba l X w = (Ok probs, w') ->
  exists k ct rs p, heap w !! l = Some (GmmObj k ct rs (Some p)) /\
    lib_gmm_predict_proba p X = Ok probs /\
    w' = add_log ("GaussianMixture.predict_proba", None) w.
Proof.
  unfold predict_proba. intros (o & w1 & [Ho ->]%deref_ok & Hrun)%bind_ok.
  destruct o as [k rs f|k ct rs [p|]]; [discriminate| |].
  - apply libcall_ok in Hrun as [Hr ->]. now exists k, ct, rs, p.
  - apply libcall_ok in Hrun as [[=] _].
Qed.

Lemma fitted_params_ok l w p w' :
  fitted_params l w = (Ok p, w') ->
  (exists k ct rs, heap w !! l = Some (GmmObj k ct rs (Some p))) /\
    w' = w.
Proof.
  unfold fitted_params. intros (o & w1 & [Ho ->]%deref_ok & Hrun)%bind_ok.
  destruct o as [k rs f|k ct rs [p'|]]; try discriminate.
  apply ret_ok in Hrun as [-> ->]. split; [|reflexivity]. now exists k, ct, rs.
Qed.

Lemma alloc_ok o w l w' :
  alloc o w = (Ok l, w') -> heap w !! l = None /\ w' = set_heap <[l:=o]> w.
Proof.
  intros [= <- <-]. split; [|reflexivity].
  apply not_elem_of_dom. apply is_fresh.
Qed.

(** X11: [labels = est.fit(X).predict(X)] fits the object that the name refers to
    in place, keeping its hyper-parameters and leaving every other object
    alone, and binds [labels] to what the freshly fitted object predicts. *)
Theorem fit_then_predict_fits_in_place (name : string) (w w' : world) :
  fit_then_predict name w = (Ok tt, w') ->
  exists l X o o' labels,
    ns w !! name = Some (VRef l) /\ ns w !! "X" = Some (VArray X) /\
    heap w !! l = Some o /\ refitted X o o' /\ predicted_by o' X labels /\
    heap w' = <[l:=o']> (heap w) /\
    ns w' = <["labels" := VInts labels]> (ns w) /\
    canvas w' = canvas w /\ effects w' = effects w.
Proof.
  unfold fit_then_predict.
  intros (l & w1 & [Hl ->]%get_ref_ok & Hrun)%bind_ok.
  apply bind_ok in Hrun as (X & w1 & [HX ->]%get_array_ok & Hrun).
  apply bind_ok in Hrun as (l' & w1 & (-> & o & o' & Ho & Hfit & Hh1 & Hn1 & Hc1 & He1)%fit_ok & Hrun).
  apply bind_ok in Hrun as (X' & w2 & [HX' ->]%get_array_ok & Hrun).
  rewrite Hn1, HX in HX'. injection HX' as <-.
  apply bind_ok in Hrun as (labels & w2 & (o2 & Ho2 & Hp & Hn2 & Hh2 & Hc2 & He2)%predict_ok & Hrun).
  apply assign_ok in Hrun as ->. simpl.
  rewrite Hh1, lookup_insert_eq in Ho2. injection Ho2 as <-.
  exists l, X, o, o', labels.
  rewrite Hn2, Hh2, Hc2, He2, Hn1, Hh1, Hc1, He1. done.
Qed.

End Fitting.

Lemma fit_then_predict_fits_in_place_witness :
  exists l X o o' labels,
    ns estimators_session !! "kmeans" = Some (VRef l) /\
    ns estimators_session !! "X" = Some (VArray X) /\
    heap estimators_session !! l = Some o /\
    @refitted (grid_library None) X o o' /\
    @predicted_by (grid_library None) o' X labels /\
    heap (snd (@fit_then_predict (grid_library None) "kmeans" estimators_session))
    = <[l:=o']> (heap estimators_session) /\
    ns (snd (@fit_then_predict (grid_library None) "kmeans" estimators_session))
    = <["labels" := VInts labels]> (ns estimators_session) /\
    canvas (snd (@fit_then_predict (grid_library None) "kmeans" estimators_session))
    = canvas estimators_session /\
    effects (snd (@fit_then_predict (grid_library None) "kmeans" estimators_session))
    = effects estimators_session.
Proof.
  refine (@fit_then_predict_fits_in_place (grid_library None) "kmeans" estimators_session _ _).
  vm_compute. reflexivity.
Defined.

(** ** What single cells leave behind *)

Ltac inv_run H :=
  lazymatch type of H with
  | mbind _ _ _ = (Ok _, _) =>
      let a := fresh "a" in
      let w1 := fresh "w" in
      let H1 := fresh "Hrun" in
      apply bind_ok in H as (a & w1 & H1 & H);
      inv_run H1;
      cbv beta in H;
      lazymatch type of H with
      | (match ?x with _ => _ end) _ = _ =>
          lazymatch type of x with
          | prod _ _ => destruct x
          | _ => idtac
          end
      | _ => idtac
      end;
      inv_run H
  | mret _ _ = _ => apply ret_ok in H as [? ?]; subst
  | use _ _ = _ => apply use_ok in H as [? ?]; subst
  | import _ _ _ = _ => apply assign_ok in H; subst
  | def _ _ = _ => apply assign_ok in H; subst
  | assign _ _ _ = _ => apply assign_ok in H; subst
  | get_array _ _ = _ => apply get_array_ok in H as [? ?]; subst
  | get_ints _ _ = _ => apply get_ints_ok in H as [? ?]; subst
  | get_floats _ _ = _ => apply get_floats_ok in H as [? ?]; subst
  | get_ref _ _ = _ => apply get_ref_ok in H as [? ?]; subst
  | load _ _ = _ => apply load_ok in H as [? ?]; subst
  | libcall _ _ _ = _ => apply libcall_ok in H as [? ?]; subst
  | lift _ _ = _ => apply lift_ok in H as [? ?]; subst
  | plot _ _ _ = _ => apply plot_ok in H; subst
  | plt_show _ = _ => apply plt_show_ok in H; subst
  | check_random_state (Some _) _ = _ => apply ret_ok in H as [? ?]; subst
  | deref _ _ = _ => apply deref_ok in H as [? ?]; subst
  | store _ _ _ = _ => apply store_ok in H; subst
  | alloc _ _ = _ => apply alloc_ok in H as [? ?]; subst
  | fit _ _ _ = _ => apply fit_ok in H as (? & ? & ? & ? & ? & ? & ? & ? & ?); subst
  | predict _ _ _ = _ => apply predict_ok in H as (? & ? & ? & ? & ? & ? & ?)
  | predict_proba _ _ _ = _ =>
      apply predict_proba_ok in H as (? & ? & ? & ? & ? & ? & ?); subst
  | fitted_params _ _ = _ => apply fitted_params_ok in H as [(? & ? & ? & ?) ?]; subst
  | (match ?x with _ => _ end) _ = (Ok _, _) =>
      lazymatch type of x with
      | value => destruct x; try discriminate H; inv_run H
      | _ => idtac
      end
  | _ => idtac
  end.

Ltac lookups :=
  repeat first [rewrite lookup_insert_eq | rewrite lookup_insert_ne by done].

Ltac lookups_in_hyps :=
  simpl in *;
  repeat match goal with
         | Hx : context [<[_:=_]> _ !! _] |- _ =>
             first [rewrite lookup_insert_eq in Hx | rewrite lookup_insert_ne in Hx by done]
         end;
  simplify_eq.

Lemma col0_flip_columns (X : array) : col0 (flip_columns X) = col1 X.
Proof. unfold col0, col1, flip_columns. rewrite map_map. reflexivity. Qed.

Lemma col1_flip_columns (X : array) : col1 (flip_columns X) = col0 X.
Proof. unfold col0, col1, flip_columns. rewrite map_map. reflexivity. Qed.

Lemma mapM_max_of (rows : list (list float64)) (maxima : list float64) :
  mapM max_of rows = Ok maxima -> Forall2 (fun row m => max_of row = Ok m) rows maxima.
Proof.
  revert maxima. induction rows as [|row rows IH]; intros maxima; simpl.
  - intros [= <-]. constructor.
  - destruct (max_of row) as [m|e] eqn:Hm; simpl; [|discriminate].
    destruct (mapM max_of rows) as [ms|e] eqn:Hms; simpl; [|discriminate].
    intros [= <-]. constructor; [exact Hm|]. now apply IH.
Qed.

Lemma fmax_probability (a b : float64) :
  probability a -> probability b -> probability (fmax a b).
Proof.
  intros (x & -> & Hx) (y & -> & Hy). simpl.
  destruct (Qle_bool x y); [now exists y|now exists x].
Qed.

Lemma max_of_probability (row : list float64) (m : float64) :
  Forall probability row -> max_of row = Ok m -> probability m.
Proof.
  destruct row as [|x row]; [discriminate|]. simpl.
  intros [Hx Hrow]%Forall_cons [= <-]. revert x Hx.
  induction Hrow as [|y row Hy _ IH]; intros x Hx; simpl; [exact Hx|].
  apply IH. now apply fmax_probability.
Qed.

Lemma marker_size_of_probability (m : float64) :
  probability m -> marker_size (fmul (of_nat 50) (fmul m m)).
Proof.
  intros (q & -> & H0 & H1). simpl. eexists. split; [reflexivity|].
  destruct q as [a b]. unfold Qle in *. simpl in *.
  rewrite ?Pos2Z.inj_mul. split; nia.
Qed.

Section Cells.
Context `{Library}.

(** X12: Cell 332af971 rebinds [X] to the generated data with its two columns
    swapped, and the one figure it shows plots the second generated feature
    against the first. *)
Theorem cell_gmm_data_swaps_features (w w' : world) :
  cell_gmm_data w = (Ok tt, w') ->
  exists X y_true,
    lib_make_blobs_n 400 4 0.6 (Seeded 0) = Ok (X, y_true) /\
    ns w' !! "X" = Some (VArray (flip_columns X)) /\
    ns w' !! "y_true" = Some (VInts y_true) /\
    length (flip_columns X) = length X /\
    effects w' = effects w ++
      [Display (canvas w ++ [Scatter (col1 X) (col0 X) [("s", VInt 40)];
                             Title "Generated Data with Four Clusters"])].
Proof.
  intros Hrun. unfold cell_gmm_data, make_blobs_n in Hrun. inv_run Hrun.
  lookups_in_hyps. eexists _, _. split; [eassumption|]. lookups.
  rewrite col0_flip_columns, col1_flip_columns, <- app_assoc.
  unfold flip_columns. rewrite length_map. done.
Qed.

(** X13: Cell bc039b2c: [size] has one entry per row of [probs], fifty times the
    square of the row's largest entry; when the entries of [probs] are
    probabilities every marker size lies between 0 and 50. *)
Theorem cell_gmm_proba_marker_sizes (w w' : world) :
  cell_gmm_proba w = (Ok tt, w') ->
  exists probs size,
    ns w' !! "probs" = Some (VMatrix probs) /\
    ns w' !! "size" = Some (VFloats size) /\
    Forall2 (fun row s => exists m, max_of row = Ok m /\ s = fmul (of_nat 50) (fmul m m))
      probs size /\
    (Forall (Forall probability) probs -> Forall marker_size size).
Proof.
  intros Hrun. unfold cell_gmm_proba, nd_max1 in Hrun. inv_run Hrun.
  lookups_in_hyps.
  match goal with Hm : mapM max_of _ = Ok _ |- _ => apply mapM_max_of in Hm; rename Hm into Hmax end.
  eexists _, _. lookups. split; [reflexivity|]. split; [reflexivity|]. split.
  - clear -Hmax. induction Hmax; constructor; eauto.
  - intros Hp. clear -Hmax Hp. induction Hmax as [|row m rows ms Hm _ IH]; simpl.
    + constructor.
    + apply Forall_cons in Hp as [Hrow Hp]. constructor; [|now apply IH].
      apply marker_size_of_probability. now apply (max_of_probability row).
Qed.

End Cells.

Lemma cell_gmm_data_swaps_features_witness :
  exists X y_true,
    @lib_make_blobs_n (grid_library None) 400 4 0.6 (Seeded 0) = Ok (X, y_true) /\
    ns (snd (@cell_gmm_data (grid_library None) (empty_world 0))) !! "X"
    = Some (VArray (flip_columns X)).
Proof.
  destruct (@cell_gmm_data_swaps_features (grid_library None) (empty_world 0)
              (snd (@cell_gmm_data (grid_library None) (empty_world 0))))
    as (X & y & Hlib & HX & _); [vm_compute; reflexivity|].
  exists X, y. split; assumption.
Defined.

Lemma cell_gmm_proba_marker_sizes_witness :
  exists probs size,
    ns (snd (@cell_gmm_proba (grid_library None)
               (snd (@fit_then_predict (grid_library None) "gmm" estimators_session))))
      !! "size" = Some (VFloats size) /\ Forall2 (fun row s => exists m, max_of row = Ok m /\
    s = fmul (of_nat 50) (fmul m m))
      probs size.
Proof.
  destruct (@cell_gmm_proba_marker_sizes (grid_library None)
              (snd (@fit_then_predict (grid_library None) "gmm" estimators_session))
              (snd (@cell_gmm_proba (grid_library None)
                      (snd (@fit_then_predict (grid_library None) "gmm" estimators_session)))))
    as (probs & size & _ & Hsize & Hall & _); [vm_compute; reflexivity|].
  exists probs, size. split; assumption.
Defined.

(** ** The ellipses of the mixture components *)

Section Ellipses.
Context `{Library}.

Lemma only_draws_bind {A B} (m : M A) (f : A -> M B) :
  only_draws m -> (forall a, only_draws (f a)) -> only_draws (m ≫= f).
Proof.
  intros Hm Hf w. specialize (Hm w). unfold mbind, M_bind.
  destruct (m w) as [[a|e] w1]; simpl in *; [|exact Hm].
  destruct Hm as (E1 & E2 & E3 & E4). destruct (Hf a w1) as (F1 & F2 & F3 & F4).
  rewrite F1, F2, F3, F4. done.
Qed.

Lemma only_draws_ret {A} (a : A) : only_draws (mret a : M A).
Proof. now intros w. Qed.

Lemma only_draws_lift {A} (r : result A) : only_draws (lift r).
Proof. now intros w. Qed.

Lemma only_draws_load x : only_draws (load x).
Proof. intros w. unfold load. now destruct (ns w !! x). Qed.

Lemma only_draws_libcall {A} name (r : result A) : only_draws (libcall name r).
Proof. now intros w. Qed.

Lemma only_draws_get_canvas : only_draws get_canvas.
Proof. now intros w. Qed.

Lemma only_draws_draw c : only_draws (draw c).
Proof. now intros w. Qed.

Lemma only_draws_mapM {A B} (f : A -> M B) (l : list A) :
  (forall a, only_draws (f a)) -> only_draws (mapM f l).
Proof.
  intros Hf. induction l as [|a l IH]; simpl.
  - apply only_draws_ret.
  - apply only_draws_bind; [apply Hf|]. intros b.
    apply only_draws_bind; [apply IH|]. intros k. apply only_draws_ret.
Qed.

Ltac only_draws_step :=
  lazymatch goal with
  | |- only_draws (mbind _ _) => apply only_draws_bind; [|intros ?]
  | |- only_draws (mret _) => apply only_draws_ret
  | |- only_draws (lift _) => apply only_draws_lift
  | |- only_draws (load _) => apply only_draws_load
  | |- only_draws (libcall _ _) => apply only_draws_libcall
  | |- only_draws get_canvas => apply only_draws_get_canvas
  | |- only_draws (draw _) => apply only_draws_draw
  | |- only_draws (mapM _ _) => apply only_draws_mapM; intros ?
  | |- only_draws (match ?x with _ => _ end) => destruct x
  end.

Lemma draw_ellipse_frame (position : point) (covariance : ndarray) (ax : bool)
    (kwargs : list (string * value)) :
  only_draws (draw_ellipse position covariance ax kwargs).
Proof.
  unfold draw_ellipse, np_linalg_svd, np_arctan2, np_degrees, np_sqrt, new_ellipse,
    plt_gca, plot, use.
  repeat only_draws_step.
Qed.

Lemma adds_patches_bind {A B} (m : M A) (f : A -> M B) :
  adds_patches m -> (forall a, adds_patches (f a)) -> adds_patches (m ≫= f).
Proof.
  intros Hm Hf w. destruct (Hm w) as (ps & Hc & Hps). unfold mbind, M_bind.
  destruct (m w) as [[a|e] w1]; simpl in *; [|now exists ps].
  destruct (Hf a w1) as (ps' & Hc' & Hps'). exists (ps ++ ps').
  rewrite Hc', Hc, app_assoc. split; [reflexivity|]. now apply Forall_app.
Qed.

Lemma adds_patches_still {A} (m : M A) :
  (forall w, canvas (snd (m w)) = canvas w) -> adds_patches m.
Proof. intros Hm w. exists []. rewrite app_nil_r. now split. Qed.

Lemma adds_patches_load x : adds_patches (load x).
Proof. apply adds_patches_still. intros w. unfold load. now destruct (ns w !! x). Qed.

Lemma adds_patches_draw e : adds_patches (draw (AddPatch e)).
Proof. intros w. exists [AddPatch e]. split; [reflexivity|]. repeat constructor. now exists e. Qed.

Lemma adds_patches_mapM {A B} (f : A -> M B) (l : list A) :
  (forall a, adds_patches (f a)) -> adds_patches (mapM f l).
Proof.
  intros Hf. induction l as [|a l IH]; simpl.
  - now apply adds_patches_still.
  - apply adds_patches_bind; [apply Hf|]. intros b.
    apply adds_patches_bind; [apply IH|]. intros k. now apply adds_patches_still.
Qed.

Ltac adds_patches_step :=
  lazymatch goal with
  | |- adds_patches (mbind _ _) => apply adds_patches_bind; [|intros ?]
  | |- adds_patches (mret _) => now apply adds_patches_still
  | |- adds_patches (lift _) => now apply adds_patches_still
  | |- adds_patches (load _) => apply adds_patches_load
  | |- adds_patches (libcall _ _) => now apply adds_patches_still
  | |- adds_patches get_canvas => now apply adds_patches_still
  | |- adds_patches (draw (AddPatch _)) => apply adds_patches_draw
  | |- adds_patches (mapM _ _) => apply adds_patches_mapM; intros ?
  | |- adds_patches (match ?x with _ => _ end) => destruct x
  end.

(** X14: [draw_ellipse] touches nothing but the current figure (and the record
    of library calls): whether it returns or raises, no global name is
    bound, no estimator is changed, numpy's global generator is not used, no
    figure is shown, and all that the figure gains are ellipse patches. *)
Theorem draw_ellipse_only_draws (position : point) (covariance : ndarray) (ax : bool)
    (kwargs : list (string * value)) :
  only_draws (draw_ellipse position covariance ax kwargs) /\
  adds_patches (draw_ellipse position covariance ax kwargs).
Proof.
  split; [apply draw_ellipse_frame|].
  unfold draw_ellipse, np_linalg_svd, np_arctan2, np_degrees, np_sqrt, new_ellipse,
    plt_gca, plot, use.
  repeat adds_patches_step.
Qed.

Lemma plot_run name c w :
  lib_plot c (canvas w) = None ->
  plot name c w = (Ok tt, set_canvas (canvas w ++ [c]) (add_log (name, None) w)).
Proof.
  intros Hp. unfold plot, get_canvas, libcall, draw, mbind, M_bind. now rewrite Hp.
Qed.

Lemma new_ellipse_run e w :
  lib_ellipse e = None -> new_ellipse e w = (Ok e, add_log ("Ellipse", None) w).
Proof. intros He. unfold new_ellipse, libcall, mbind, M_bind. now rewrite He. Qed.

Lemma patches_run position width height angle kwargs (l : list nat) w :
  is_Some (ns w !! "Ellipse") ->
  (forall e, lib_ellipse e = None) -> (forall c cv, lib_plot c cv = None) ->
  exists rows w',
    mapM (fun nsig =>
            use "Ellipse";;
            e ← new_ellipse (Ellipse position (nd_scale nsig width) (nd_scale nsig height)
                   angle kwargs);
            plot "ax.add_patch" (AddPatch e)) l w = (Ok rows, w').
Proof.
  intros HE He Hp. revert w HE. induction l as [|nsig l IH]; intros w HE; simpl.
  - eexists _, _. reflexivity.
  - match goal with
    | |- context [mbind _ (mbind ?g (use "Ellipse")) w] =>
        assert (Hstep : exists w1, (use "Ellipse" ≫= g) w = (Ok tt, w1) /\ ns w1 = ns w)
    end.
    { rewrite (bind_run _ _ _ _ _ (use_run _ _ HE)).
      rewrite (bind_run _ _ _ _ _ (new_ellipse_run _ _ (He _))).
      rewrite (plot_run _ _ _ (Hp _ _)). eexists. split; reflexivity. }
    destruct Hstep as (w1 & Hstep & Hns). rewrite (bind_run _ _ _ _ _ Hstep).
    rewrite <- Hns in HE. destruct (IH w1 HE) as (rows & w' & Hrun).
    rewrite (bind_run _ _ _ _ _ Hrun). eexists _, _. reflexivity.
Qed.

(** X15: For a covariance with two entries (a diagonal one) [draw_ellipse]
    returns whenever the names it uses are bound and no drawing call raises,
    and the three ellipses are axis-aligned, with widths and heights
    [nsig * 2 * sqrt] of the two entries. *)
Theorem draw_ellipse_diagonal_covariance (position : point) (a b : float64) (ax : bool)
    (kwargs : list (string * value)) (w : world) :
  is_Some (ns w !! "np") -> is_Some (ns w !! "Ellipse") ->
  (ax = false -> is_Some (ns w !! "plt")) ->
  (forall e, lib_ellipse e = None) -> (forall c cv, lib_plot c cv = None) ->
  exists w',
    draw_ellipse position (Vector [a; b]) ax kwargs w = (Ok tt, w') /\
    canvas w' = canvas w ++
      sigma_patches position (Scalar (fmul (of_nat 2) (lib_sqrt a)))
        (Scalar (fmul (of_nat 2) (lib_sqrt b))) (Fin 0) kwargs.
Proof.
  intros Hnp HE Hplt He Hp.
  assert (Hrun : exists w', draw_ellipse position (Vector [a; b]) ax kwargs w = (Ok tt, w')).
  { unfold draw_ellipse.
    assert (Hax : exists w1, (if ax then mret tt else use "plt";; plt_gca) w = (Ok tt, w1) /\
                             ns w1 = ns w).
    { destruct ax; [now eexists|]. eexists.
      rewrite (bind_run _ _ _ _ _ (use_run _ _ (Hplt eq_refl))). split; reflexivity. }
    destruct Hax as (w1 & Hax & Hns). rewrite (bind_run _ _ _ _ _ Hax).
    rewrite <- Hns in Hnp, HE. simpl as_mat2. cbv iota.
    match goal with
    | |- context [mbind _ (mbind ?g (use "np")) w1] =>
        assert (Hwh : (use "np" ≫= g) w1
                      = (Ok (Fin 0, (Scalar (fmul (of_nat 2) (lib_sqrt a)),
                                     Scalar (fmul (of_nat 2) (lib_sqrt b)))),
                         add_log ("np.sqrt", None) w1))
    end.
    { rewrite (bind_run _ _ _ _ _ (use_run _ _ Hnp)). reflexivity. }
    rewrite (bind_run _ _ _ _ _ Hwh). cbv beta iota.
    match goal with
    | |- context [mbind _ (mapM _ (seq 1 3)) ?w2] =>
        destruct (patches_run position (Scalar (fmul (of_nat 2) (lib_sqrt a)))
                    (Scalar (fmul (of_nat 2) (lib_sqrt b))) (Fin 0) kwargs (seq 1 3) w2
                    HE He Hp) as (rows & w' & Hrun)
    end.
    rewrite (bind_run _ _ _ _ _ Hrun). eexists. reflexivity. }
  destruct Hrun as [w' Hrun]. exists w'. split; [exact Hrun|].
  destruct (draw_ellipse_ok _ _ _ _ _ _ _ Hrun) as (angle & width & height & Hc & Hshape).
  simpl in Hshape. destruct Hshape as [-> [= <- <-]]. exact Hc.
Qed.

Lemma ellipses_ok (kw : float64 -> list (string * value))
    (l : list (point * ndarray * float64)) w rows w' :
  mapM (fun '(pos, covar, wt) =>
          use "draw_ellipse";; draw_ellipse pos covar false (kw wt)) l w = (Ok rows, w') ->
  exists groups,
    canvas w' = canvas w ++ concat groups /\
    Forall2 (fun '(pos, covar, wt) patches =>
               exists angle width height,
                 patches = sigma_patches pos width height angle (kw wt)) l groups /\
    ns w' = ns w /\ heap w' = heap w /\ effects w' = effects w.
Proof.
  revert w rows. induction l as [|[[pos covar] wt] l IH]; intros w rows; simpl.
  - intros [-> ->]%ret_ok. exists []. simpl. rewrite app_nil_r. repeat split. constructor.
  - intros (u & w1 & Hstep & Hrun)%bind_ok.
    apply bind_ok in Hstep as (u' & w0 & [_ ->]%use_ok & Hdraw).
    apply bind_ok in Hrun as (rest & w2 & Hrest & [-> ->]%ret_ok).
    destruct u. destruct (draw_ellipse_ok _ _ _ _ _ _ _ Hdraw)
      as (angle & width & height & Hc & _).
    destruct (draw_ellipse_frame pos covar false (kw wt) w) as (Hn & Hh & _ & He).
    rewrite Hdraw in Hn, Hh, He. simpl in Hn, Hh, He.
    destruct (IH _ _ Hrest) as (groups & Hc' & Hall & Hn' & Hh' & He').
    exists (sigma_patches pos width height angle (kw wt) :: groups). simpl.
    rewrite Hc', Hc, Hn', Hh', He', Hn, Hh, He, <- app_assoc. repeat split.
    constructor; [|exact Hall]. now exists angle, width, height.
Qed.

Lemma plot_gmm_ok (gmm : nat) (X : array) (label ax : bool) (w w' : world) :
  plot_gmm gmm X label ax w = (Ok tt, w') ->
  exists k ct rs f p labels wmax groups,
    heap w !! gmm = Some (GmmObj k ct rs f) /\
    refitted X (GmmObj k ct rs f) (GmmObj k ct rs (Some p)) /\
    lib_gmm_predict p X = Ok labels /\
    max_of (weights_ p) = Ok wmax /\
    heap w' = <[gmm := GmmObj k ct rs (Some p)]> (heap w) /\
    ns w' = ns w /\ effects w' = effects w /\
    canvas w' = canvas w ++
      Scatter (col0 X) (col1 X)
        (if label
         then [("c", VInts labels); ("s", VInt 40); ("cmap", VStr "plasma");
               ("zorder", VInt 2)]
         else [("s", VInt 40); ("zorder", VInt 2)])
      :: Axis "equal" :: concat groups /\
    Forall2 (fun '(pos, covar, wt) patches =>
               exists angle width height,
                 patches = sigma_patches pos width height angle
                             [("alpha", VFloat (fmul wt (fdiv (Fin 0.2) wmax)))])
      (zip (zip (means_ p) (covariances_ p)) (weights_ p)) groups.
Proof.
  intros Hrun. unfold plot_gmm, plt_gca, nd_max in Hrun.
  apply bind_ok in Hrun as (u & w0 & Hax & Hrun).
  assert (Hw0 : ns w0 = ns w /\ heap w0 = heap w /\ canvas w0 = canvas w /\
                effects w0 = effects w).
  { destruct ax; inv_run Hax; done. }
  destruct Hw0 as (Hn0 & Hh0 & Hc0 & He0).
  inv_run Hrun.
  match goal with
  | Hx : heap w0 !! gmm = Some ?x, Hfit : refitted X ?x ?x', Hh : heap ?w1 = <[gmm:=?x']> _,
    Hx1 : heap ?w1 !! gmm = Some ?x1, Hp : predicted_by ?x1 X ?labels,
    Hmax : max_of _ = Ok ?wmax,
    Hpar : heap _ !! gmm = Some (GmmObj ?k ?ct ?rs (Some ?p)),
    Hsc : (if label then _ else _) ?w2 = (Ok _, ?w3),
    Hell : mapM _ _ _ = (Ok _, _) |- _ =>
      rename Hx into Hobj; rename Hfit into Hrefit; rename Hh into Hheap1;
      rename Hx1 into Hobj1; rename Hp into Hpred; rename Hpar into Hparams;
      rename Hsc into Hscatter; rename Hell into Hellipses;
      rename x into o; rename x' into o'; rename x1 into o1;
      rename w1 into wf; rename w2 into wp; rename w3 into ws
  end.
  assert (Hws : ws = set_canvas (canvas wp ++
                  [Scatter (col0 X) (col1 X)
                     (if label
                      then [("c", VInts a); ("s", VInt 40); ("cmap", VStr "plasma");
                            ("zorder", VInt 2)]
                      else [("s", VInt 40); ("zorder", VInt 2)])])
                  (add_log ("ax.scatter", None) wp)).
  { destruct label; now apply plot_ok in Hscatter. }
  subst ws. clear Hscatter. simpl in Hparams.
  rewrite Hheap1, lookup_insert_eq in Hobj1. injection Hobj1 as <-.
  match goal with Hh : heap wp = heap wf |- _ => rewrite Hh, Hheap1, lookup_insert_eq in Hparams end.
  injection Hparams as ->.
  destruct o as [k rs f|k ct rs f]; simpl in Hrefit;
    destruct Hrefit as (g & r & Hseed & Hfit & Ho'); [discriminate|].
  injection Ho' as -> -> -> ->.
  apply (ellipses_ok (fun wt => [("alpha", VFloat (fmul wt (fdiv (Fin 0.2) a3)))]))
    in Hellipses as (groups & Hc & Hall & Hn & Hh & He).
  simpl in Hc, Hn, Hh, He, Hpred.
  exists k, ct, rs, f, r, a, a3, groups.
  rewrite Hh0 in Hobj.
  repeat match goal with
         | Heq : ns ?v = _ |- _ => rewrite Heq in *; clear Heq
         | Heq : heap ?v = _ |- _ => rewrite Heq in *; clear Heq
         | Heq : effects ?v = _ |- _ => rewrite Heq in *; clear Heq
         | Heq : canvas ?v = _ |- _ => rewrite Heq in *; clear Heq
         end.
  split; [exact Hobj|]. split; [simpl; now exists g, r|].
  rewrite <- !app_assoc. simpl. done.
Qed.

(** X16: [plot_gmm] fits the estimator it is given in place (the caller's object
    is changed, every other object is left alone), binds no global name and
    shows nothing; to the current figure it adds the scatter of the data,
    [axis('equal')] and, for each component, three ellipses whose alpha is
    the component's weight times [0.2 / max weight]. *)
Theorem plot_gmm_refits_and_draws (gmm : nat) (X : array) (label ax : bool) (w w' : world) :
  plot_gmm gmm X label ax w = (Ok tt, w') ->
  exists k ct rs f p labels wmax groups,
    heap w !! gmm = Some (GmmObj k ct rs f) /\
    refitted X (GmmObj k ct rs f) (GmmObj k ct rs (Some p)) /\
    lib_gmm_predict p X = Ok labels /\
    max_of (weights_ p) = Ok wmax /\
    heap w' = <[gmm := GmmObj k ct rs (Some p)]> (heap w) /\
    ns w' = ns w /\ effects w' = effects w /\
    canvas w' = canvas w ++
      Scatter (col0 X) (col1 X)
        (if label
         then [("c", VInts labels); ("s", VInt 40); ("cmap", VStr "plasma");
               ("zorder", VInt 2)]
         else [("s", VInt 40); ("zorder", VInt 2)])
      :: Axis "equal" :: concat groups /\
    Forall2 (fun '(pos, covar, wt) patches =>
               exists angle width height,
                 patches = sigma_patches pos width height angle
                             [("alpha", VFloat (fmul wt (fdiv (Fin 0.2) wmax)))])
      (zip (zip (means_ p) (covariances_ p)) (weights_ p)) groups.
Proof. apply plot_gmm_ok. Qed.

(** X17: Cell 48db8ef9 draws the ellipses of a mixture that it creates and fits
    itself: [gmm] is rebound to a new object, the objects of earlier cells
    (the mixture fitted by cell 80f5fa89 among them) are left as they were,
    and the global [labels] is not rebound. *)
Theorem cell_gmm_ellipses_fits_new_mixture (w w' : world) :
  cell_gmm_ellipses w = (Ok tt, w') ->
  exists l X p labels groups,
    ns w !! "X" = Some (VArray X) /\
    heap w !! l = None /\
    lib_gmm_fit 4 "full" (Seeded 42) X = Ok p /\
    lib_gmm_predict p X = Ok labels /\
    heap w' = <[l := GmmObj 4 "full" (Some 42%Z) (Some p)]> (heap w) /\
    ns w' !! "gmm" = Some (VRef l) /\
    ns w' !! "labels" = ns w !! "labels" /\
    effects w' = effects w ++
      [Display (canvas w ++
         Scatter (col0 X) (col1 X)
           [("c", VInts labels); ("s", VInt 40); ("cmap", VStr "plasma"); ("zorder", VInt 2)]
         :: Axis "equal"
         :: concat groups ++ [Title "GMM with Elliptical Cluster Boundaries"])] /\
    Forall (fun patches => length patches = 3) groups /\
    length groups = length (zip (zip (means_ p) (covariances_ p)) (weights_ p)).
Proof.
  intros Hrun. unfold cell_gmm_ellipses, GaussianMixture in Hrun. inv_run Hrun.
  lazymatch goal with
  | Hp : plot_gmm _ _ _ _ _ = (Ok ?u, _) |- _ =>
      destruct u; apply plot_gmm_ok in Hp
        as (k & ct & rs & f & p & labels & wmax & groups & Hobj & Hrefit & Hpred & Hmax &
            Hheap & Hns & Heff & Hcanvas & Hall)
  end.
  lookups_in_hyps.
  rewrite lookup_insert_eq in Hobj. injection Hobj as <- <- <- <-.
  rewrite insert_insert_eq in Hheap.
  destruct Hrefit as (g & p' & Hseed & Hfit & [= <-]).
  rewrite (Hseed _ eq_refl) in Hfit.
  lazymatch goal with
  | Hx : ns w !! "X" = Some (VArray ?X), Hl : heap w !! ?l = None |- _ =>
      exists l, X, p, labels, groups
  end.
  rewrite Hheap, Hns, Heff, Hcanvas. lookups.
  repeat (split; [done|]). split; [|split].
  - rewrite <- !app_assoc. reflexivity.
  - clear -Hall. induction Hall as [|[[pos covar] wt] ps l gs (? & ? & ? & ->) _ IH];
      constructor; [reflexivity|exact IH].
  - symmetry. exact (Forall2_length _ _ _ Hall).
Qed.

End Ellipses.

Lemma draw_ellipse_diagonal_covariance_witness :
  exists w',
    @draw_ellipse (grid_library None) (Fin 1, Fin 2) (Vector [Fin 4; Fin 9]) false []
      toy_session = (Ok tt, w') /\
    canvas w' = canvas toy_session ++
      sigma_patches (Fin 1, Fin 2) (Scalar (fmul (of_nat 2) (Fin 4)))
        (Scalar (fmul (of_nat 2) (Fin 9))) (Fin 0) [].
Proof.
  apply (@draw_ellipse_diagonal_covariance (grid_library None) (Fin 1, Fin 2) (Fin 4)
           (Fin 9) false [] toy_session).
  - vm_compute. eexists. reflexivity.
  - vm_compute. eexists. reflexivity.
  - intros _. vm_compute. eexists. reflexivity.
  - reflexivity.
  - reflexivity.
Defined.

Lemma plot_gmm_refits_and_draws_witness :
  exists k ct rs f p,
    heap estimators_session !! 1 = Some (GmmObj k ct rs f) /\
    heap (snd (@plot_gmm (grid_library None) 1
                 [(Fin 0, Fin 0); (Fin 2, Fin 0); (Fin 10, Fin 0)] true false
                 estimators_session))
    = <[1 := GmmObj k ct rs (Some p)]> (heap estimators_session).
Proof.
  destruct (@plot_gmm_refits_and_draws (grid_library None) 1
              [(Fin 0, Fin 0); (Fin 2, Fin 0); (Fin 10, Fin 0)] true false
              estimators_session
              (snd (@plot_gmm (grid_library None) 1
                      [(Fin 0, Fin 0); (Fin 2, Fin 0); (Fin 10, Fin 0)] true false
                      estimators_session)))
    as (k & ct & rs & f & p & labels & wmax & groups & Hobj & _ & _ & _ & Hheap & _);
    [vm_compute; reflexivity|].
  exists k, ct, rs, f, p. split; assumption.
Defined.

Lemma cell_gmm_ellipses_fits_new_mixture_witness :
  exists l p,
    heap estimators_session !! l = None /\
    heap (snd (@cell_gmm_ellipses (grid_library None)
                 (set_ns <["GaussianMixture" := VModule "sklearn.mixture.GaussianMixture"]>
                    estimators_session)))
    = <[l := GmmObj 4 "full" (Some 42%Z) (Some p)]> (heap estimators_session).
Proof.
  destruct (@cell_gmm_ellipses_fits_new_mixture (grid_library None)
              (set_ns <["GaussianMixture" := VModule "sklearn.mixture.GaussianMixture"]>
                 estimators_session)
              (snd (@cell_gmm_ellipses (grid_library None)
                 (set_ns <["GaussianMixture" := VModule "sklearn.mixture.GaussianMixture"]>
                    estimators_session))))
    as (l & X & p & labels & groups & _ & Hl & _ & _ & Hheap & _);
    [vm_compute; reflexivity|].
  exists l, p. split; assumption.
Defined.

(** ** Empty clusters in the illustration of k-Means *)

Lemma finite_rows_nan (a : array) (i : nat) : a !! i = Some (NaN, NaN) -> finite_rows a = None.
Proof.
  intros Hi. destruct (finite_rows a) as [pts|] eqn:Hpts; [|reflexivity].
  destruct (finite_rows_lookup a pts i _ Hpts Hi) as [q Hq]. discriminate.
Qed.

Lemma pairwise_distances_argmin_nan (X Y : array) :
  finite_rows Y = None ->
  pairwise_distances_argmin X Y = Raise (ValueError "input contains NaN").
Proof.
  intros HY. unfold pairwise_distances_argmin. rewrite HY.
  now destruct (finite_rows X).
Qed.

Lemma round_fills_every_cluster (X : array) (L : list nat) (C' : array) (L' : list nat) :
  m_step X L = Ok C' -> pairwise_distances_argmin X C' = Ok L' ->
  (forall i, i < 5 -> assigned X L i <> []) /\ is_Some (finite_rows C').
Proof.
  intros HC HL'. apply pairwise_distances_argmin_nearest in HL'.
  destruct (assigns_nearest_finite _ _ _ HL') as [[xs Hxs] Hfin].
  split; [|exact Hfin]. now apply (m_step_finite_iff X xs L C' Hxs HC).
Qed.

Lemma five_selections_length {A} (X : list A) (L : list nat) :
  (forall i, i < 5 -> assigned X L i <> []) ->
  5 <= length (concat (map (assigned X L) (seq 0 5))).
Proof.
  intros Hne. simpl. rewrite !length_app.
  pose proof (Hne 0 ltac:(lia)). pose proof (Hne 1 ltac:(lia)).
  pose proof (Hne 2 ltac:(lia)). pose proof (Hne 3 ltac:(lia)).
  pose proof (Hne 4 ltac:(lia)).
  destruct (assigned X L 0), (assigned X L 1), (assigned X L 2), (assigned X L 3),
    (assigned X L 4); try congruence; simpl; lia.
Qed.

Section Illustration.
Context `{Library}.

(** X18: The illustration cell runs to its end only if no cluster ever runs
    empty: in each of its three rounds every index 0..4 labels at least one
    point, so the data has at least five rows and the last centers are five
    finite points. *)
Theorem kmeans_illustration_fills_every_cluster (w w' : world) :
  cell_kmeans_steps w = (Ok tt, w') ->
  exists X C0 L1 C1 L2 C2 L3 C3,
    kmeans_round X C0 = Ok (L1, C1) /\
    kmeans_round X C1 = Ok (L2, C2) /\
    kmeans_round X C2 = Ok (L3, C3) /\
    ns w' !! "X" = Some (VArray X) /\
    ns w' !! "centers" = Some (VArray C3) /\
    (forall i, i < 5 ->
       assigned X L1 i <> [] /\ assigned X L2 i <> [] /\ assigned X L3 i <> []) /\
    length C3 = 5 /\ is_Some (finite_rows C3) /\ 5 <= length X.
Proof.
  intros (X & C0 & L1 & C1 & L2 & C2 & L3 & C3 & L4 & HL1 & HC1 & HL2 & HC2 & HL3
          & HC3 & HL4 & HX & Hl & Hc)%kmeans_illustration_rounds.
  destruct (round_fills_every_cluster _ _ _ _ HC1 HL2) as [Hne1 _].
  destruct (round_fills_every_cluster _ _ _ _ HC2 HL3) as [Hne2 _].
  destruct (round_fills_every_cluster _ _ _ _ HC3 HL4) as [Hne3 Hfin].
  exists X, C0, L1, C1, L2, C2, L3, C3.
  split; [unfold kmeans_round; rewrite HL1; simpl; now rewrite HC1|].
  split; [unfold kmeans_round; rewrite HL2; simpl; now rewrite HC2|].
  split; [unfold kmeans_round; rewrite HL3; simpl; now rewrite HC3|].
  split; [exact HX|]. split; [exact Hc|].
  split; [intros i Hi; auto|].
  split; [exact (proj1 (length_m_step _ _ _ HC3))|].
  split; [exact Hfin|].
  pose proof (five_selections_length X L2 Hne2) as Hlen.
  assert (Hperm : concat (map (assigned X L2) (seq 0 5)) ≡ₚ X).
  { pose proof (pairwise_distances_argmin_nearest _ _ _ HL2) as Hnear.
    apply selections_partition.
    - exact (assigns_nearest_length _ _ _ Hnear).
    - rewrite <- (proj1 (length_m_step _ _ _ HC1)).
      exact (assigns_nearest_in_range _ _ _ Hnear). }
  rewrite (Permutation_length Hperm) in Hlen. exact Hlen.
Qed.

Lemma comprehension_frame (l : list nat) w rows w' :
  mapM cluster_mean l w = (Ok rows, w') ->
  ns w' = ns w /\ heap w' = heap w /\ canvas w' = canvas w /\ effects w' = effects w.
Proof.
  revert w rows. induction l as [|i l IH]; intros w rows; simpl.
  - now intros [_ ->]%ret_ok.
  - intros (p & w1 & (X & L & sel & _ & _ & _ & _ & ->)%cluster_mean_ok & Hrun)%bind_ok.
    apply bind_ok in Hrun as (rest & w2 & Hrest & [_ ->]%ret_ok).
    destruct (IH _ _ Hrest) as (-> & -> & -> & ->). done.
Qed.

(** X19: An M-step with an empty cluster stops the illustration: [centers] is
    rebound to an array with a row that is not a number, the call of
    [plot_kmeans_step] that follows raises the library's ValueError, and no
    figure of this step is drawn or shown. *)
Theorem empty_cluster_stops_illustration (step_title : string) (w : world) (X : array)
    (labels : list nat) (i : nat) :
  is_Some (ns w !! "np") -> is_Some (ns w !! "plot_kmeans_step") ->
  is_Some (ns w !! "pairwise_distances_argmin") ->
  ns w !! "X" = Some (VArray X) -> ns w !! "labels" = Some (VInts labels) ->
  length labels = length X ->
  i < 5 -> assigned X labels i = [] ->
  exists centers w',
    m_step_shown step_title w = (Raise (ValueError "input contains NaN"), w') /\
    m_step X labels = Ok centers /\ centers !! i = Some (NaN, NaN) /\
    ns w' = <["centers" := VArray centers]> (ns w) /\
    canvas w' = canvas w /\ effects w' = effects w.
Proof.
  intros Hnp Hpks Hpda HX HL Hlen Hi Hempty.
  destruct (recompute_centers_returns w X labels Hnp HX HL Hlen) as [w1 Hrun].
  pose proof Hrun as Hrun'.
  apply recompute_centers_ok in Hrun' as (X' & L' & centers & HX' & HL' & Hm & Hns & _).
  rewrite HX in HX'. rewrite HL in HL'. injection HX' as <-. injection HL' as <-.
  assert (Hframe : canvas w1 = canvas w /\ effects w1 = effects w).
  { unfold recompute_centers, np_array in Hrun. inv_run Hrun.
    match goal with
    | Hc : mapM cluster_mean _ _ = _ |- _ =>
        apply comprehension_frame in Hc as (_ & _ & Hcv & Hef)
    end.
    simpl. now rewrite Hcv, Hef. }
  destruct Hframe as [Hcv Hef].
  assert (Hnan : centers !! i = Some (NaN, NaN)).
  { pose proof (lookup_m_step _ _ _ _ Hm Hi) as Hlk.
    rewrite Hempty, mean0_empty in Hlk. exact Hlk. }
  exists centers, (add_log ("pairwise_distances_argmin",
                             Some (ValueError "input contains NaN")) w1).
  split; [|simpl; rewrite Hns, Hcv, Hef; done].
  unfold m_step_shown. rewrite (bind_run _ _ _ _ _ Hrun).
  assert (Hcall : call_plot_kmeans_step step_title w1
                  = (Raise (ValueError "input contains NaN"),
                     add_log ("pairwise_distances_argmin",
                              Some (ValueError "input contains NaN")) w1)).
  { unfold call_plot_kmeans_step.
    rewrite (bind_run _ _ _ _ _ (use_run "plot_kmeans_step" w1 ltac:(
      rewrite Hns, lookup_insert_ne by done; exact Hpks))).
    rewrite (bind_run _ _ _ _ _ (get_array_run "X" w1 X ltac:(
      rewrite Hns, lookup_insert_ne by done; exact HX))).
    rewrite (bind_run _ _ _ _ _ (get_array_run "centers" w1 centers ltac:(
      rewrite Hns; apply lookup_insert_eq))).
    unfold plot_kmeans_step.
    rewrite (bind_run _ _ _ _ _ (use_run "pairwise_distances_argmin" w1 ltac:(
      rewrite Hns, lookup_insert_ne by done; exact Hpda))).
    rewrite (pairwise_distances_argmin_nan X centers (finite_rows_nan _ _ Hnan)).
    reflexivity. }
  unfold mbind, M_bind. now rewrite Hcall.
Qed.

Lemma get_generator_ok x w g w' :
  get_generator x w = (Ok g, w') -> ns w !! x = Some (VGenerator g) /\ w' = w.
Proof.
  unfold get_generator. intros (v & w1 & [Hv ->]%load_ok & Hrun)%bind_ok.
  destruct v; try discriminate. now apply ret_ok in Hrun as [-> ->].
Qed.

Lemma get_strs_ok x w l w' :
  get_strs x w = (Ok l, w') -> ns w !! x = Some (VStrs l) /\ w' = w.
Proof.
  unfold get_strs. intros (v & w1 & [Hv ->]%load_ok & Hrun)%bind_ok.
  destruct v; try discriminate. now apply ret_ok in Hrun as [-> ->].
Qed.

Lemma take_rows_ok {A} (X : list A) (idx : list nat) (rows : list A) :
  take_rows X idx = Ok rows -> Forall2 (fun i c => X !! i = Some c) idx rows.
Proof.
  unfold take_rows. destruct (mapM (fun i => X !! i) idx) as [rows'|] eqn:Hrows; [|discriminate].
  intros [= <-]. apply mapM_Some_1 in Hrows. exact Hrows.
Qed.

(** X20: The initial centers of the illustration are rows of the data: at most
    five, picked by the first entries of a permutation drawn from a
    generator seeded with 1, and these centers are what the first E-step
    labels the points against. *)
Theorem initial_centers_are_data_rows (w w' : world) :
  cell_kmeans_steps w = (Ok tt, w') ->
  exists X y_true perm C0 L1,
    lib_make_blobs_n 300 5 0.6 (Seeded 1) = Ok (X, y_true) /\
    lib_permutation (Seeded 1) (length X) = Ok perm /\
    Forall2 (fun i c => X !! i = Some c) (take 5 perm) C0 /\
    length C0 <= 5 /\
    pairwise_distances_argmin X C0 = Ok L1 /\
    ns w' !! "X" = Some (VArray X) /\
    ns w' !! "y_true" = Some (VInts y_true) /\
    ns w' !! "rng" = Some (VGenerator (Seeded 1)) /\
    ns w' !! "i" = Some (VInts (take 5 perm)).
Proof.
  intros Hrun. unfold cell_kmeans_steps, make_blobs_n, RandomState, permutation in Hrun.
  inv_run Hrun.
  repeat match goal with
         | Hr : call_plot_kmeans_step _ _ = (Ok _, _) |- _ =>
             apply call_plot_kmeans_step_ok in Hr as (? & ? & ? & ? & ? & ?)
         | Hr : e_step _ _ = (Ok _, _) |- _ =>
             apply e_step_ok in Hr as (? & ? & ? & ? & ? & ? & ?)
         | Hr : m_step_shown _ _ = (Ok _, _) |- _ =>
             apply m_step_shown_ok in Hr as (? & ? & ? & ? & ? & ? & ? & ? & ?)
         end.
  match goal with
  | Hg : get_generator _ _ = _ |- _ => apply get_generator_ok in Hg as [Hrng ->]
  end.
  lookups_in_hyps.
  repeat match goal with
         | Heq : ns ?v = _ |- _ => is_var v; rewrite Heq in *; clear Heq
         end.
  lookups_in_hyps.
  match goal with
  | HX : lib_make_blobs_n _ _ _ _ = Ok (?X, ?y), Hperm : lib_permutation _ _ = Ok ?perm,
    Hrows : take_rows _ _ = Ok ?C0, HL : pairwise_distances_argmin _ ?C0 = Ok ?L1 |- _ =>
      exists X, y, perm, C0, L1; pose proof (take_rows_ok _ _ _ Hrows) as Hall
  end.
  lookups. repeat (split; [done|]). split; [|done].
  rewrite <- (Forall2_length _ _ _ Hall), length_take. lia.
Qed.


Lemma fit_predict_ok l X w labels w' :
  fit_predict l X w = (Ok labels, w') ->
  exists k rs f g r,
    heap w !! l = Some (KMeansObj k rs f) /\
    (forall seed, rs = Some seed -> g = Seeded seed) /\
    lib_kmeans_fit k g X = Ok r /\ labels = snd r /\
    heap w' = <[l := KMeansObj k rs (Some r)]> (heap w) /\
    ns w' = ns w /\ canvas w' = canvas w /\ effects w' = effects w.
Proof.
  unfold fit_predict. intros (o & w1 & [Ho ->]%deref_ok & Hrun)%bind_ok.
  destruct o as [k rs f|k ct rs f]; [|discriminate].
  apply bind_ok in Hrun as (g & w1 & (Hg & Hn1 & Hh1 & Hc1 & He1)%check_random_state_ok & Hrun).
  apply bind_ok in Hrun as (r & w2 & [Hr ->]%libcall_ok & Hrun).
  apply bind_ok in Hrun as ([] & w3 & ->%store_ok & [-> ->]%ret_ok).
  exists k, rs, f, g, r. simpl. rewrite Hh1, Hn1, Hc1, He1. done.
Qed.

(** [labels = KMeans(k, random_state=0).fit_predict(X)]: a new estimator is
    created and fitted, and [labels] is bound to the labels of the fit. *)
Lemma kmeans_labels_ok k w u w' :
  kmeans_labels k w = (Ok u, w') ->
  exists X l r,
    ns w !! "X" = Some (VArray X) /\ heap w !! l = None /\
    lib_kmeans_fit k (Seeded 0) X = Ok r /\
    heap w' = <[l := KMeansObj k (Some 0%Z) (Some r)]> (heap w) /\
    ns w' = <["labels" := VInts (snd r)]> (ns w) /\
    canvas w' = canvas w /\ effects w' = effects w.
Proof.
  unfold kmeans_labels, KMeans. intros Hrun. inv_run Hrun.
  match goal with
  | Hfp : fit_predict _ _ _ = _ |- _ =>
      apply fit_predict_ok in Hfp
        as (k' & rs & f & g & r & Hobj & Hseed & Hfit & -> & Hheap & Hns & Hcv & Hef)
  end.
  simpl in *. rewrite lookup_insert_eq in Hobj. injection Hobj as <- <- <-.
  rewrite insert_insert_eq in Hheap. rewrite (Hseed _ eq_refl) in Hfit.
  eexists _, _, r. rewrite Hheap, Hns, Hcv, Hef. done.
Qed.

(** X21: Cell c3ac760f draws one figure in which the loop over the three original
    labels plots the selections [X[y == i]], each with its own marker; when
    the original labels are 0, 1 or 2 these selections split the data, so
    that every sample is drawn once with the marker of its blob, and once
    more by the overlay coloured by the k-Means labels.  The loop variable
    stays bound: after the cell the global [i] is 2. *)
Theorem cell_sizes_marks_every_sample (w w' : world) :
  cell_sizes w = (Ok tt, w') ->
  exists X y r groups,
    lib_make_blobs_at [600; 100; 100] [(Fin 0, Fin 0); (Fin 3, Fin 3); (Fin (-3), Fin 3)]
      [Fin 2; Fin 0.5; Fin 0.5] (Seeded 1) = Ok (X, y) /\
    length y = length X /\
    lib_kmeans_fit 3 (Seeded 0) X = Ok r /\
    ns w' !! "labels" = Some (VInts (snd r)) /\
    ns w' !! "i" = Some (VInt 2) /\
    Forall2 (fun i c => exists marker kw,
               ["o"; "s"; "D"] !! i = Some marker /\
               c = Scatter (col0 (assigned X y i)) (col1 (assigned X y i))
                     (("c", VInts (replicate (length (assigned X y i)) i)) :: kw) /\
               kw !! 1 = Some ("marker", VStr marker))
      [0; 1; 2] groups /\
    effects w' = effects w ++
      [Display (canvas w ++ Figure [("figsize", VInts [8; 6])] :: groups ++
         [Scatter (col0 X) (col1 X)
            [("c", VInts (snd r)); ("s", VInt 20); ("cmap", VStr "plasma");
             ("alpha", VFloat (Fin 0.4))];
          Title "Generated Blobs with Original Labels and KMeans Clustering";
          Xlabel "Feature 1"; Ylabel "Feature 2";
          Legend [("loc", VStr "upper right")]; Grid true])] /\
    (Forall (fun l => l < 3) y -> concat (map (assigned X y) [0; 1; 2]) ≡ₚ X).
Proof.
  intros Hrun. unfold cell_sizes, make_blobs_at, scatter_original in Hrun.
  cbn [mapM seq] in Hrun.
  inv_run Hrun.
  repeat match goal with
         | Hk : kmeans_labels _ _ = (Ok _, _) |- _ =>
             apply kmeans_labels_ok in Hk as (? & ? & ? & ? & ? & ? & ? & ? & ? & ?)
         | Hs : get_strs _ _ = (Ok _, _) |- _ => apply get_strs_ok in Hs as [? ->]
         end.
  lookups_in_hyps.
  repeat match goal with
         | Heq : ns ?v = _ |- _ => is_var v; rewrite Heq in *; clear Heq
         | Heq : canvas ?v = _ |- _ => is_var v; rewrite Heq in *; clear Heq
         | Heq : effects ?v = _ |- _ => is_var v; rewrite Heq in *; clear Heq
         end.
  lookups_in_hyps.
  lazymatch goal with
  | Hb : lib_make_blobs_at _ _ _ _ = Ok (?X, ?y), Hk : lib_kmeans_fit _ _ _ = Ok ?r,
    H0 : bool_index _ (eq_mask _ 0) = Ok ?s0, H1 : bool_index _ (eq_mask _ 1) = Ok ?s1,
    H2 : bool_index _ (eq_mask _ 2) = Ok ?s2 |- _ =>
      assert (Hlen : length y = length X)
        by (destruct (decide (length y = length X)) as [|Hne]; [assumption|];
            rewrite (bool_index_mismatch _ _ _ Hne) in H0; discriminate);
      rewrite (bool_index_assigned _ _ 0 Hlen) in H0;
      rewrite (bool_index_assigned _ _ 1 Hlen) in H1;
      rewrite (bool_index_assigned _ _ 2 Hlen) in H2;
      injection H0 as <-; injection H1 as <-; injection H2 as <-;
      exists X, y, r; eexists [_; _; _]
  end.
  lookups. repeat (split; [done|]). split; [|split]; cycle 1.
  - rewrite <- !app_assoc. reflexivity.
  - intros Hy. now apply (selections_partition _ _ 3).
  - do 3 (constructor; [eexists _, _; split; [reflexivity|]; split; reflexivity|]).
    constructor.
Qed.

End Illustration.

Lemma kmeans_illustration_fills_every_cluster_witness :
  exists X, ns (snd (@cell_kmeans_steps (grid_library None) (empty_world 0))) !! "X"
            = Some (VArray X) /\ 5 <= length X.
Proof.
  destruct (@kmeans_illustration_fills_every_cluster (grid_library None) (empty_world 0)
              (snd (@cell_kmeans_steps (grid_library None) (empty_world 0))))
    as (X & C0 & L1 & C1 & L2 & C2 & L3 & C3 & _ & _ & _ & HX & _ & _ & _ & _ & Hlen);
    [vm_compute; reflexivity|].
  exists X. split; assumption.
Defined.

Lemma empty_cluster_stops_illustration_witness :
  exists (centers : array) (w' : world),
    @m_step_shown (grid_library None) "First M-Step" illustration_session
    = (Raise (ValueError "input contains NaN"), w') /\
    centers !! 4 = Some (NaN, NaN) /\ effects w' = effects illustration_session.
Proof.
  destruct (@empty_cluster_stops_illustration (grid_library None) "First M-Step"
              illustration_session
              [(Fin 0, Fin 0); (Fin 2, Fin 0); (Fin 10, Fin 0); (Fin 0, Fin 10);
               (Fin 10, Fin 10)] [0; 0; 1; 2; 3] 4)
    as (centers & w' & Hrun & _ & Hnan & _ & _ & Heff);
    try (vm_compute; eexists; reflexivity); try reflexivity; [lia|].
  exists centers, w'. repeat split; assumption.
Defined.

Lemma initial_centers_are_data_rows_witness :
  exists (X : array) (perm : list nat),
    @lib_permutation (grid_library None) (Seeded 1) (length X) = Ok perm /\
    ns (snd (@cell_kmeans_steps (grid_library None) (empty_world 0))) !! "i"
    = Some (VInts (take 5 perm)).
Proof.
  destruct (@initial_centers_are_data_rows (grid_library None) (empty_world 0)
              (snd (@cell_kmeans_steps (grid_library None) (empty_world 0))))
    as (X & y & perm & C0 & L1 & _ & Hperm & _ & _ & _ & _ & _ & _ & Hi);
    [vm_compute; reflexivity|].
  exists X, perm. split; assumption.
Defined.

Lemma cell_sizes_marks_every_sample_witness :
  ns (snd (@cell_sizes (grid_library None)
             (snd (@cell_kmeans3 (grid_library None)
                     (snd (@cell_kmeans_steps (grid_library None) (empty_world 0)))))))
    !! "i" = Some (VInt 2).
Proof.
  destruct (@cell_sizes_marks_every_sample (grid_library None)
              (snd (@cell_kmeans3 (grid_library None)
                      (snd (@cell_kmeans_steps (grid_library None) (empty_world 0)))))
              (snd (@cell_sizes (grid_library None)
                 (snd (@cell_kmeans3 (grid_library None)
                         (snd (@cell_kmeans_steps (grid_library None) (empty_world 0))))))))
    as (X & y & r & groups & _ & _ & _ & _ & Hi & _);
    [vm_compute; reflexivity|].
  exact Hi.
Defined.
